(** * TinyChat: the room/client registry of [main.go]

    A shallow embedding of the chat server's registry (type [Server] with
    its [Rooms] and [Clients] maps, the [Client] objects they point to) and
    of the session code ([initClient], the loop of [clientRun] and its
    per-line dispatch), followed by the properties of the registry
    operations and of the sessions.

    Conventions of the embedding.
    - A [*Client] is an address ([ptr]); the Go heap is the component
      [heap] of the state, a total function: every [*Client] the program
      handles comes from [&Client{...}] and is never [nil].
    - A [*Room] is only ever reachable through [s.Rooms[name]]
      ([createRoom] is the one place that stores it), so a room is
      identified with its name and held by value in the [Rooms] map.
    - Every exported operation runs under [s.mu]; the embedding is the
      sequential body of each operation.  The mutexes are not modelled.
    - [range] over a Go map visits the entries in an unspecified order.
      [findRoom] takes the order in which the rooms are visited as an
      argument; the fan-out loops of [Message] and [Blast] write the same
      line to every entry, so their result does not depend on the order.
    - [time.Now().Format(time.RFC3339)] is an input ([ts]) of the
      operations that read the clock.
    - An [error] is the text it carries (all errors are built with
      [errors.New]); [nil] is [None].
    - A connection records what it was handed: [written] lists the
      arguments of the calls of [Conn.Write], also those made after
      [Close].  The log file ([errl]) is not modelled. *)

From Stdlib Require Import Ascii String NArith ZArith DecimalString DecimalZ.
From stdpp Require Import gmap strings list fin_maps.

(** ** Strings: CR LF, [strings.TrimSpace] *)

Module GoStrings.

Definition CR : ascii := ascii_of_nat 13.
Definition LF : ascii := ascii_of_nat 10.
Definition SP : ascii := ascii_of_nat 32.

(** The Go literal ["\r\n"]. *)
Definition CRLF : string := String CR (String LF EmptyString).

Definition byte (a : ascii) : N := N_of_ascii a.

(** [asciiSpace] of package [strings]: tab, LF, VT, FF, CR and space. *)
Definition is_ascii_space (a : ascii) : bool :=
  let b := byte a in
  ((9 <=? b) && (b <=? 13) || (b =? 32))%N.

(** UTF-8 encodings of the other code points of [unicode.IsSpace]:
    U+0085 and U+00A0 on two bytes, ... *)
Definition two_byte_space (b0 b1 : N) : bool :=
  ((b0 =? 194) && ((b1 =? 133) || (b1 =? 160)))%N.

(** ... U+1680, U+2000 to U+200A, U+2028, U+2029, U+202F, U+205F and
    U+3000 on three bytes. *)
Definition three_byte_space (b0 b1 b2 : N) : bool :=
  ((b0 =? 225) && (b1 =? 154) && (b2 =? 128)
   || (b0 =? 226) && (b1 =? 128)
      && ((128 <=? b2) && (b2 <=? 138) || (b2 =? 168) || (b2 =? 169) || (b2 =? 175))
   || (b0 =? 226) && (b1 =? 129) && (b2 =? 159)
   || (b0 =? 227) && (b1 =? 128) && (b2 =? 128))%N.

(** Width in bytes of the white-space rune that starts [l], [0] when [l]
    does not start with white space. *)
Definition space_at (l : list ascii) : nat :=
  match l with
  | [] => 0
  | a0 :: l1 =>
      if is_ascii_space a0 then 1
      else match l1 with
           | [] => 0
           | a1 :: l2 =>
               if two_byte_space (byte a0) (byte a1) then 2
               else match l2 with
                    | [] => 0
                    | a2 :: _ =>
                        if three_byte_space (byte a0) (byte a1) (byte a2)
                        then 3 else 0
                    end
           end
      end.

(** The same for the rune that ends a string, read on the reversed
    string [r] (last byte first). *)
Definition space_before (r : list ascii) : nat :=
  match r with
  | [] => 0
  | a0 :: r1 =>
      if is_ascii_space a0 then 1
      else match r1 with
           | [] => 0
           | a1 :: r2 =>
               if two_byte_space (byte a1) (byte a0) then 2
               else match r2 with
                    | [] => 0
                    | a2 :: _ =>
                        if three_byte_space (byte a2) (byte a1) (byte a0)
                        then 3 else 0
                    end
           end
      end.

(** Strip white-space runes from the front; [n] bounds the number of
    runes stripped (the length of the string is enough). *)
Fixpoint strip (width : list ascii -> nat) (n : nat) (l : list ascii)
  : list ascii :=
  match n with
  | 0 => l
  | S n' =>
      match width l with
      | 0 => l
      | w => strip width n' (drop w l)
      end
  end.

Definition TrimLeft (l : list ascii) : list ascii :=
  strip space_at (List.length l) l.

Definition TrimRight (l : list ascii) : list ascii :=
  rev (strip space_before (List.length l) (rev l)).

(** [strings.TrimSpace]: the string without its leading and trailing
    white space, as defined by Unicode. *)
Definition TrimSpace (s : string) : string :=
  string_of_list_ascii (TrimRight (TrimLeft (list_ascii_of_string s))).

(** A string holds no white space (every token that [strings.Fields]
    returns is such a string, and is not empty). *)
Fixpoint no_space (l : list ascii) : bool :=
  match l with
  | [] => true
  | _ :: t => (space_at l =? 0) && no_space t
  end.

Definition Field (w : string) : Prop :=
  w <> EmptyString /\ no_space (list_ascii_of_string w) = true.

(** The field collected so far ([cur], last byte first), if any. *)
Definition flush (cur : list ascii) : list string :=
  match cur with
  | [] => []
  | _ :: _ => [string_of_list_ascii (rev cur)]
  end.

(** The scan of [strings.Fields]: a white-space rune ends the current
    field, any other byte extends it.  [n] bounds the number of steps (the
    length of the string is enough). *)
Fixpoint fields_scan (n : nat) (cur l : list ascii) : list string :=
  match n with
  | 0 => flush cur
  | S n' =>
      match l with
      | [] => flush cur
      | a :: t =>
          match space_at l with
          | 0 => fields_scan n' (a :: cur) t
          | w => flush cur ++ fields_scan n' [] (drop w l)
          end
      end
  end.

(** No suffix of [tok] starts with white space when [tok] is followed by
    [rest]: what the scan knows of the field it is collecting. *)
Definition clean (tok rest : list ascii) : Prop :=
  forall i, i < List.length tok -> space_at (drop i (tok ++ rest)) = 0.

(** [strings.Fields]: the maximal runs of bytes between white space. *)
Definition Fields (s : string) : list string :=
  fields_scan (List.length (list_ascii_of_string s)) [] (list_ascii_of_string s).

End GoStrings.

Import GoStrings.

(** ** Data model *)

(** Address of a [Client] object. *)
Definition ptr := nat.

(** An [error] value: its text. *)
Definition error := string.

(** The connection of a client, as far as the program sees it: whether
    [Close] was called, and the arguments of the calls of [Write], oldest
    first. *)
Record NetConn := mkConn { closed : bool; written : list string }.

(** [type Client struct { mu; nick; Conn }] *)
Record Client := mkClient { nick : string; Conn : NetConn }.

(** [type Room struct { mu; Clients map[string]*Client }]: the member map. *)
Abbreviation Room := (gmap string ptr).

(** [type Server struct { mu; Rooms; Clients }], with the [Client] objects
    its maps point to. *)
Record State := mkState {
  Rooms : gmap string Room;
  Clients : gmap string ptr;
  heap : ptr -> Client
}.

Definition set_Rooms (f : gmap string Room -> gmap string Room) (s : State) : State :=
  mkState (f (Rooms s)) (Clients s) (heap s).

Definition set_Clients (f : gmap string ptr -> gmap string ptr) (s : State) : State :=
  mkState (Rooms s) (f (Clients s)) (heap s).

Definition set_heap (f : (ptr -> Client) -> ptr -> Client) (s : State) : State :=
  mkState (Rooms s) (Clients s) (f (heap s)).

(** Assignment through a pointer. *)
Definition store (p : ptr) (c : Client) (h : ptr -> Client) : ptr -> Client :=
  fun q => if decide (q = p) then c else h q.

(** [NewServer]: both maps empty. *)
Definition NewServer (h : ptr -> Client) : State := mkState ∅ ∅ h.

(** ** Errors *)

(** [fmt.Sprintf("user [%s] already exists\r\n", to)] *)
Definition NameTakenError (to : string) : error :=
  "user [" +:+ to +:+ "] already exists" +:+ CRLF.

(** [fmt.Sprintf("user [%s] does not exists\r\n", to)] *)
Definition UnknownClientError (to : string) : error :=
  "user [" +:+ to +:+ "] does not exists" +:+ CRLF.

(** [fmt.Sprintf("%s does not have a room", cl.Nick())] *)
Definition NotFoundError (n : string) : error :=
  n +:+ " does not have a room".

Definition ClientExistsError : error := "Client already exists".

(** ** Client methods *)

(** [func (cl *Client) Nick() string] *)
Definition Nick (s : State) (cl : ptr) : string := nick (heap s cl).

Definition conn_write (line : string) (c : Client) : Client :=
  mkClient (nick c) (mkConn (closed (Conn c)) (written (Conn c) ++ [line])).

Definition conn_close (c : Client) : Client :=
  mkClient (nick c) (mkConn true (written (Conn c))).

Definition set_nick (n : string) (c : Client) : Client :=
  mkClient n (Conn c).

(** [func (cl *Client) Write(s string)] *)
Definition Write (cl : ptr) (line : string) (s : State) : State :=
  set_heap (fun h => store cl (conn_write line (h cl)) h) s.

(** What the connection of [cl] was handed so far. *)
Definition sent (s : State) (cl : ptr) : list string := written (Conn (heap s cl)).

(** ** Registry helpers (called with the lock held) *)

(** [func (s *Server) clientExists(nick string) bool] *)
Definition clientExists (n : string) (s : State) : bool :=
  bool_decide (is_Some (Clients s !! n)).

(** [func (s *Server) roomExists(roomname string) bool] *)
Definition roomExists (roomname : string) (s : State) : bool :=
  bool_decide (is_Some (Rooms s !! roomname)).

(** [func (s *Server) addClient(cl *Client) error] *)
Definition addClient (cl : ptr) (s : State) : option error * State :=
  if negb (clientExists (Nick s cl) s)
  then (None, set_Clients (insert (Nick s cl) cl) s)
  else (Some ClientExistsError, s).

(** [func (s *Server) createRoom(roomname string) *Room] *)
Definition createRoom (roomname : string) (s : State) : State :=
  set_Rooms (insert roomname (∅ : Room)) s.

(** [func (s *Server) joinRoom(roomname string, cl *Client) error] *)
Definition joinRoom (roomname : string) (cl : ptr) (s : State)
  : option error * State :=
  let s1 := if negb (roomExists roomname s) then createRoom roomname s else s in
  let s2 := set_Rooms (alter (insert (Nick s1 cl) cl) roomname) s1 in
  match addClient cl s2 with
  | (Some err, s3) => (Some err, s3)
  | (None, s3) => (None, s3)
  end.

(** The loop of [findRoom]: the rooms are visited in the order [ord]; the
    first one whose member map has the key [n] is returned. *)
Fixpoint scanRooms (rooms : gmap string Room) (n : string) (ord : list string)
  : option string :=
  match ord with
  | [] => None
  | r :: rest =>
      match rooms !! r with
      | Some room =>
          if bool_decide (is_Some (room !! n)) then Some r
          else scanRooms rooms n rest
      | None => scanRooms rooms n rest
      end
  end.

(** [ord] is an order in which [range s.Rooms] may visit the rooms: every
    room once. *)
Definition range_order (s : State) (ord : list string) : Prop :=
  ord ≡ₚ (map_to_list (Rooms s)).*1.

(** [func (s *Server) findRoom(cl *Client) (r *Room, err error)] *)
Definition findRoom (ord : list string) (cl : ptr) (s : State) : string + error :=
  match scanRooms (Rooms s) (Nick s cl) ord with
  | Some r => inl r
  | None => inr (NotFoundError (Nick s cl))
  end.

(** [func (s *Server) tryDeleteFromRoom(cl *Client)] *)
Definition tryDeleteFromRoom (ord : list string) (cl : ptr) (s : State) : State :=
  match findRoom ord cl s with
  | inl r => set_Rooms (alter (delete (Nick s cl)) r) s
  | inr _ => s
  end.

(** [c.Write(line)] for every [c] of [cs], in that order. *)
Definition deliver (cs : list ptr) (line : string) (s : State) : State :=
  fold_left (fun s' c => Write c line s') cs s.

(** The fan-out loop [for _, c := range m { c.Write(line) }]. *)
Definition fanout (m : gmap string ptr) (line : string) (s : State) : State :=
  deliver (map_to_list m).*2 line s.

(** [fmt.Sprintf("%s %s", msg, v)] *)
Definition add_word (msg v : string) : string := msg +:+ " " +:+ v.

(** The line both [Message] and [Blast] build from the words they keep:
    [msg := "[ts:nick]"], then [msg = msg + " " + v] for every word, then
    [msg = msg + CRLF], and what is written is
    [strings.TrimSpace(msg) + CRLF]. *)
Definition format_line (ts n : string) (words : list string) : string :=
  let msg := "[" +:+ ts +:+ ":" +:+ n +:+ "]" in
  let msg := fold_left add_word words msg in
  let msg := msg +:+ CRLF in
  TrimSpace msg +:+ CRLF.

(** ** Registry operations *)

(** [func (s *Server) CloseClient(cl *Client)] *)
Definition CloseClient (cl : ptr) (s : State) : State :=
  let s1 := set_heap (fun h => store cl (conn_close (h cl)) h) s in
  set_Clients (delete (Nick s1 cl)) s1.

(** [func (s *Server) ChangeNick(from, to string) error] *)
Definition ChangeNick (ord : list string) (from to : string) (s : State)
  : option error * State :=
  if clientExists to s then (Some (NameTakenError to), s)
  else
    match Clients s !! from with
    | Some cl =>
        match findRoom ord cl s with
        | inr err => (Some err, s)
        | inl r =>
            let s1 := set_Rooms (alter (delete from) r) s in
            let s2 := set_Clients (delete from) s1 in
            let s3 := set_heap (fun h => store cl (set_nick to (h cl)) h) s2 in
            let s4 := set_Rooms (alter (insert to cl) r) s3 in
            let s5 := set_Clients (insert to cl) s4 in
            (None, s5)
        end
    | None => (Some (UnknownClientError to), s)
    end.

(** [func (s *Server) Message(inputs []string, cl *Client) error] *)
Definition Message (ts : string) (ord : list string) (inputs : list string)
  (cl : ptr) (s : State) : option error * State :=
  let line := format_line ts (Nick s cl) inputs in
  match findRoom ord cl s with
  | inr err => (Some err, s)
  | inl r =>
      match Rooms s !! r with
      | Some room => (None, fanout room line s)
      | None => (None, s)
      end
  end.

(** [func (s *Server) Blast(inputs []string, cl *Client)].  The slice
    expression [inputs[1:]] panics on an empty slice: [None]. *)
Definition Blast (ts : string) (inputs : list string) (cl : ptr) (s : State)
  : option State :=
  match inputs with
  | [] => None
  | _ :: rest => Some (fanout (Clients s) (format_line ts (Nick s cl) rest) s)
  end.

(** [func (s *Server) JoinRoom(roomname string, cl *Client) error] *)
Definition JoinRoom (ord : list string) (roomname : string) (cl : ptr) (s : State)
  : option error * State :=
  let s1 := tryDeleteFromRoom ord cl s in
  match joinRoom roomname cl s1 with
  | (Some err, s2) => (Some err, s2)
  | (None, s2) => (None, s2)
  end.

(** ** The session driver: one iteration of the loop of [clientRun] *)

Definition NL : string := String LF EmptyString.

(** The constant [banner], cut at its [%s]. *)
Definition banner_head : string :=
  String.concat NL
    [
       EmptyString;
       "--|Welcome|--------------------------------------------------------------------------------------";
       EmptyString;
       "You are user ["
    ].

Definition banner_tail : string :=
  String.concat NL
    [
       "], Welcome to TinyChat. ";
       EmptyString;
       "--|Help|-----------------------------------------------------------------------------------------";
       EmptyString;
       "{no flag needed}";
       "send a message to the room you are in";
       "(example: hi freeze, i'm batman)";
       EmptyString;
       "/help";
       "prints this banner";
       "(example: /help) ";
       EmptyString;
       "/quit";
       "quits the application";
       "(example: /quit) ";
       EmptyString;
       "/nick";
       "sets your nickname";
       "(example: /nick batman)";
       EmptyString;
       "/room ";
       "change chat room, only 1 room may be joined";
       "(example: /room gotham)";
       EmptyString;
       "/blast";
       "blast a message to all connected clients ";
       "(example: /blast the ice man cometh)";
       EmptyString;
       "-------------------------------------------------------------------------------------------------";
       EmptyString
    ].

(** [fmt.Sprintf(banner, nick)] *)
Definition banner (n : string) : string := banner_head +:+ n +:+ banner_tail.

Section Driver.

(** [strings.ToLower] of the Go library. *)
Variable ToLower : string -> string.

(** The [if]/[switch] on the tokens of the line.  [None]: the iteration
    panics. *)
Definition dispatch (ts : string) (ord : list string) (inputs : list string)
  (cl : ptr) (s : State) : option State :=
  match inputs with
  | [] => Some (Write cl ("Command not recognized" +:+ CRLF) s)
  | c :: args =>
      if String.eqb c "/help" then Some (Write cl (banner (Nick s cl)) s)
      else if String.eqb c "/quit" then Some (CloseClient cl s)
      else if String.eqb c "/blast" then Blast ts inputs cl s
      else if String.eqb c "/room" then
        match args with
        | _ :: _ =>
            let roomname := fold_left String.append args EmptyString in
            let s1 := snd (JoinRoom ord (ToLower roomname) cl s) in
            Some (Write cl ("Joining room " +:+ ToLower roomname +:+ CRLF) s1)
        | [] => Some (Write cl ("Unable to join room" +:+ CRLF) s)
        end
      else if String.eqb c "/nick" then
        match args with
        | to :: _ =>
            let from := Nick s cl in
            let (err, s1) := ChangeNick ord from to s in
            let resp :=
              "Nick changed from [" +:+ from +:+ "] to [" +:+ to +:+ "]" +:+ CRLF in
            match err with
            | Some e => Some (Write cl e s1)
            | None => Some (Write cl resp s1)
            end
        | [] =>
            Some (Write cl ("Nick unchanged and is currently ["
                            +:+ Nick s cl +:+ "] " +:+ CRLF) s)
        end
      else Some (snd (Message ts ord inputs cl s))
  end.

(** The body of the loop of [clientRun] for a line [cmd] that was read
    without error: [inputs := strings.Fields(cmd)], then the dispatch. *)
Definition clientRun_line (ts : string) (ord : list string) (cmd : string)
  (cl : ptr) (s : State) : option State :=
  dispatch ts ord (Fields cmd) cl s.

End Driver.

(** ** Membership and the registry invariant *)

(** [c] is stored in the member map [m] (under some nickname). *)
Definition member (m : gmap string ptr) (c : ptr) : Prop :=
  exists n, m !! n = Some c.

(** No client is stored under two nicknames of [m]. *)
Definition one_key (m : gmap string ptr) : Prop :=
  forall n1 n2 c, m !! n1 = Some c -> m !! n2 = Some c -> n1 = n2.

(** Room [r] has an entry for the nickname [n]: the test of [findRoom]. *)
Definition in_room (s : State) (n r : string) : Prop :=
  exists room, Rooms s !! r = Some room /\ is_Some (room !! n).

(** Room [r] stores client [c] under the nickname [n]. *)
Definition seated (s : State) (n : string) (c : ptr) (r : string) : Prop :=
  exists room, Rooms s !! r = Some room /\ room !! n = Some c.

(** No room but [r] has an entry for [n]. *)
Definition only_room (s : State) (n r : string) : Prop :=
  forall r', in_room s n r' -> r' = r.

(** The rooms that have an entry for [n], as a list. *)
Definition rooms_of (s : State) (n : string) : list string :=
  (filter (fun p : string * Room => is_Some (p.2 !! n)) (map_to_list (Rooms s))).*1.

(** At most one room has an entry for [n]. *)
Definition at_most_one_room (s : State) (n : string) : Prop :=
  forall r1 r2, in_room s n r1 -> in_room s n r2 -> r1 = r2.

(** The rooms store [c] under its current nickname only. *)
Definition own_key (s : State) (c : ptr) : Prop :=
  forall r room n, Rooms s !! r = Some room -> room !! n = Some c -> n = Nick s c.

(** No room has an entry for [n]. *)
Definition unseated (s : State) (n : string) : Prop :=
  forall r, ~ in_room s n r.

(** A client is in some room under [n] exactly when the flat index holds
    it under [n]. *)
Definition index_matches_rooms (s : State) : Prop :=
  forall n c, (exists r, seated s n c r) <-> Clients s !! n = Some c.

(** A client is in at most one room. *)
Definition one_room_per_client (s : State) : Prop :=
  forall c n1 r1 n2 r2, seated s n1 c r1 -> seated s n2 c r2 -> r1 = r2.

(** The invariant of the data model. *)
Definition RegistryInv (s : State) : Prop :=
  index_matches_rooms s /\ one_room_per_client s.

(** The flat index keys every client by its current nickname. *)
Definition keyed_by_nick (s : State) : Prop :=
  forall n c, Clients s !! n = Some c -> Nick s c = n.

Definition WellFormed (s : State) : Prop :=
  RegistryInv s /\ keyed_by_nick s.

(** What one iteration of the driver wrote: one line to [cl] and nothing
    to the others, or nothing at all. *)
Definition replies_once (cl : ptr) (s s' : State) : Prop :=
  exists line, sent s' cl = sent s cl ++ [line]
               /\ forall c, c <> cl -> sent s' c = sent s c.

Definition silent (s s' : State) : Prop :=
  forall c, sent s' c = sent s c.

(** ** A small server, for examples *)

Module Demo.

Definition A : ptr := 1.
Definition B : ptr := 2.

(** Two clients, nicknamed [a] and [b], nothing written yet. *)
Definition clients : ptr -> Client :=
  fun p => mkClient (match p with 1 => "a" | 2 => "b" | _ => EmptyString end)
                    (mkConn false []).

Definition DefaultRoom : string := "Gotham City".

(** [strings.ToLower] on room names without upper-case letters, the only
    ones the examples lower. *)
Definition ToLower : string -> string := fun x => x.

(** [A] has joined the default room. *)
Definition s1 : State := snd (JoinRoom [] DefaultRoom A (NewServer clients)).

(** Then [B] has joined the default room too. *)
Definition s2 : State := snd (JoinRoom [DefaultRoom] DefaultRoom B s1).

(** Then [B] has moved to the room [gotham]. *)
Definition s3 : State := snd (JoinRoom [DefaultRoom] "gotham" B s2).

(** A client in the flat index that no room holds. *)
Definition lonely : State :=
  mkState (<["lobby" := ∅]> ∅) (<["a" := A]> ∅) clients.

(** [A] joins the room [r2], [B] the default room, [A] quits, and [B]
    takes the nickname that [A] had. *)
Definition q1 : State := snd (JoinRoom [] "r2" A (NewServer clients)).
Definition q2 : State := snd (JoinRoom ["r2"] DefaultRoom B q1).
Definition q3 : State := CloseClient A q2.
Definition q4 : State := snd (ChangeNick ["r2"; DefaultRoom] "b" "a" q3).


(** From [q4], [B] takes the nickname [c] and joins the default room
    again, [r2] visited first both times. *)
Definition q8 : State :=
  snd (JoinRoom ["r2"; DefaultRoom] DefaultRoom B
         (snd (ChangeNick ["r2"; DefaultRoom] "a" "c" q4))).

End Demo.

(** ** Connection set-up and the session loop *)

(** The constant [DefaultRoom]. *)
Definition DefaultRoom : string := "Gotham City".

(** [fmt.Sprintf("%s%d", "user", time.Now().UnixNano())]: the nickname a
    connection starts with; [nanos] is the reading of the clock. *)
Definition uname (nanos : Z) : string :=
  "user" +:+ NilZero.string_of_int (Z.to_int nanos).

(** One successful [buf.ReadString] of the loop of [clientRun], with what
    the iteration takes from outside: the line, the clock, and the order
    in which [findRoom] visits the rooms. *)
Record ReadLine := mkLine {
  line_ts : string;
  line_ord : list string;
  line_cmd : string
}.

Section Session.

Variable ToLower : string -> string.

(** [func clientRun(cl *Client, buf *bufio.Reader)]: one iteration for
    every line the reader returns; the loop ends at the first read error,
    which is the end of [lines].  [None]: an iteration panics. *)
Fixpoint clientRun (lines : list ReadLine) (cl : ptr) (s : State) : option State :=
  match lines with
  | [] => Some s
  | l :: rest =>
      match clientRun_line ToLower (line_ts l) (line_ord l) (line_cmd l) cl s with
      | Some s' => clientRun rest cl s'
      | None => None
      end
  end.

(** [cl := &Client{nick: uname, Conn: conn}]: the object at the new
    address [cl]. *)
Definition newClient (nanos : Z) (conn : NetConn) (cl : ptr) (s : State) : State :=
  set_heap (store cl (mkClient (uname nanos) conn)) s.

(** [func initClient(conn net.Conn)], up to the call of [clientRun]: the
    new object, then the join of the default room (its error is only
    logged) and the banner. *)
Definition initClient_setup (nanos : Z) (conn : NetConn) (ord : list string)
  (cl : ptr) (s : State) : State :=
  let s0 := newClient nanos conn cl s in
  let s1 := snd (JoinRoom ord DefaultRoom cl s0) in
  Write cl (banner (uname nanos)) s1.

(** [func initClient(conn net.Conn)] *)
Definition initClient (nanos : Z) (conn : NetConn) (ord : list string)
  (lines : list ReadLine) (cl : ptr) (s : State) : option State :=
  clientRun lines cl (initClient_setup nanos conn ord cl s).

End Session.


(** No map of the registry refers to the address [cl]. *)
Definition fresh (s : State) (cl : ptr) : Prop :=
  (forall n, Clients s !! n <> Some cl)
  /\ forall r room n, Rooms s !! r = Some room -> room !! n <> Some cl.


(** ** Sequences of registry operations *)

(** One call of an exported operation, on any arguments; [findRoom]
    visits the rooms in an order [range] allows. *)
Inductive op_step : State -> State -> Prop :=
| step_JoinRoom ord rn cl s :
    range_order s ord -> op_step s (JoinRoom ord rn cl s).2
| step_ChangeNick ord from to s :
    range_order s ord -> op_step s (ChangeNick ord from to s).2
| step_Message ts ord ws cl s :
    range_order s ord -> op_step s (Message ts ord ws cl s).2
| step_Blast ts ws cl s s' :
    Blast ts ws cl s = Some s' -> op_step s s'
| step_CloseClient cl s :
    op_step s (CloseClient cl s).

(** The states of a server that started from [NewServer]. *)
Inductive reachable (h : ptr -> Client) : State -> Prop :=
| reach_new : reachable h (NewServer h)
| reach_step s s' : reachable h s -> op_step s s' -> reachable h s'.

(** The same without [CloseClient], and with [JoinRoom] called on a client
    that is new (its nickname is not in the flat index) or registered
    under its nickname. *)
Inductive seat_step : State -> State -> Prop :=
| seat_JoinRoom ord rn cl s :
    range_order s ord ->
    Clients s !! Nick s cl = None \/ Clients s !! Nick s cl = Some cl ->
    seat_step s (JoinRoom ord rn cl s).2
| seat_ChangeNick ord from to s :
    range_order s ord -> seat_step s (ChangeNick ord from to s).2
| seat_Message ts ord ws cl s :
    range_order s ord -> seat_step s (Message ts ord ws cl s).2
| seat_Blast ts ws cl s s' :
    Blast ts ws cl s = Some s' -> seat_step s s'.

Inductive seat_reachable (h : ptr -> Client) : State -> Prop :=
| seat_new : seat_reachable h (NewServer h)
| seat_next s s' : seat_reachable h s -> seat_step s s' -> seat_reachable h s'.

(** What the operations other than [CloseClient] keep: every client of
    the flat index is still in it, and every connection is as open or
    closed as before. *)
Definition keeps_clients (s s' : State) : Prop :=
  (forall c, member (Clients s) c -> member (Clients s') c)
  /\ forall p, closed (Conn (heap s' p)) = closed (Conn (heap s p)).

(** [pre] is the beginning of [l]. *)
Definition grows (pre l : list string) : Prop := exists more, l = pre ++ more.

(** A concrete list is an order of visit of a concrete state. *)
Ltac order_ok := vm_compute; first [reflexivity | apply Permutation_swap].

Section StringFacts.

Lemma bytes_app (s1 s2 : string) :
  list_ascii_of_string (s1 +:+ s2) = list_ascii_of_string s1 ++ list_ascii_of_string s2.
Proof. induction s1 as [|a s1 IH]; simpl; [done | by rewrite IH]. Qed.

Lemma string_app_assoc (s1 s2 s3 : string) :
  (s1 +:+ s2) +:+ s3 = s1 +:+ (s2 +:+ s3).
Proof.
  induction s1 as [|a s1 IH]; [done|].
  change (String a ((s1 +:+ s2) +:+ s3) = String a (s1 +:+ (s2 +:+ s3))).
  by f_equal.
Qed.

Lemma no_space_suffix (l1 l2 : list ascii) :
  no_space (l1 ++ l2) = true -> no_space l2 = true.
Proof.
  induction l1 as [|a l1 IH]; [done|].
  change ((a :: l1) ++ l2) with (a :: (l1 ++ l2)).
  cbn [no_space]. intros H. apply andb_prop in H as [_ H]. auto.
Qed.

Lemma no_space_head (l : list ascii) :
  no_space l = true -> space_at l = 0.
Proof.
  destruct l as [|a l]; [done|]. cbn [no_space].
  intros H. apply andb_prop in H as [H _]. by apply Nat.eqb_eq in H.
Qed.

Lemma three_byte_space_mid_sp (b0 b2 : N) : three_byte_space b0 (byte SP) b2 = false.
Proof.
  unfold three_byte_space. change (byte SP) with 32%N.
  destruct (b0 =? 225)%N, (b0 =? 226)%N, (b0 =? 227)%N; reflexivity.
Qed.

(** A word without white space does not end with a white-space rune,
    whatever precedes the space in front of it. *)
Lemma space_before_word (w pre : list ascii) :
  w <> [] -> no_space w = true -> space_before (rev (pre ++ SP :: w)) = 0.
Proof.
  intros Hne Hw.
  rewrite rev_app_distr. change (SP :: w) with ([SP] ++ w).
  rewrite rev_app_distr. simpl rev at 2. rewrite <- app_assoc. simpl app at 2.
  destruct (rev w) as [|a [|b [|c t]]] eqn:E.
  - apply (f_equal (@rev ascii)) in E. rewrite rev_involutive in E. done.
  - apply (f_equal (@rev ascii)) in E. rewrite rev_involutive in E. simpl in E.
    subst w. apply no_space_head in Hw. simpl in Hw.
    simpl. destruct (is_ascii_space a); [done|].
    change (two_byte_space (byte SP) (byte a)) with false. cbv iota.
    destruct (rev pre); [done|]. by rewrite three_byte_space_mid_sp.
  - apply (f_equal (@rev ascii)) in E. rewrite rev_involutive in E. simpl in E.
    subst w. pose proof (no_space_head _ Hw) as H2.
    pose proof (no_space_head _ (no_space_suffix [b] [a] Hw)) as H1.
    simpl in H1, H2. simpl.
    destruct (is_ascii_space a); [done|].
    destruct (is_ascii_space b); [done|].
    destruct (two_byte_space (byte b) (byte a)); [done|].
    reflexivity.
  - apply (f_equal (@rev ascii)) in E. rewrite rev_involutive in E. simpl in E.
    subst w. rewrite <- !app_assoc in Hw. simpl in Hw.
    apply no_space_suffix in Hw.
    pose proof (no_space_head _ Hw) as H3.
    pose proof (no_space_head _ (no_space_suffix [c] [b; a] Hw)) as H2.
    pose proof (no_space_head _ (no_space_suffix [c; b] [a] Hw)) as H1.
    simpl in H1, H2, H3. simpl.
    destruct (is_ascii_space a); [done|].
    destruct (is_ascii_space b); [done|].
    destruct (is_ascii_space c); [done|].
    destruct (two_byte_space (byte b) (byte a)); [done|].
    destruct (two_byte_space (byte c) (byte b)); [done|].
    destruct (three_byte_space (byte c) (byte b) (byte a)); done.
Qed.

Lemma space_at_bracket (l : list ascii) : space_at ("["%char :: l) = 0.
Proof. by destruct l as [|a1 [|a2 l2]]. Qed.

Lemma strip_stop width n (l : list ascii) : width l = 0 -> strip width n l = l.
Proof. intros H. destruct n; simpl; [done | by rewrite H]. Qed.

Lemma strip_step width n k (l : list ascii) :
  width l = S k -> strip width (S n) l = strip width n (drop (S k) l).
Proof. intros H. simpl. by rewrite H. Qed.

Lemma TrimRight_CRLF (l : list ascii) :
  space_before (rev l) = 0 -> TrimRight (l ++ [CR; LF]) = l.
Proof.
  intros H. unfold TrimRight. rewrite rev_app_distr, length_app.
  change (rev [CR; LF]) with [LF; CR].
  replace (List.length l + List.length [CR; LF]) with (S (S (List.length l)))
    by (simpl; lia).
  remember (rev l) as r eqn:Er.
  change ([LF; CR] ++ r) with (LF :: CR :: r).
  rewrite (strip_step _ _ 0) by reflexivity.
  change (drop 1 (LF :: CR :: r)) with (CR :: r).
  rewrite (strip_step _ _ 0) by reflexivity.
  change (drop 1 (CR :: r)) with r.
  rewrite strip_stop by done. subst r. apply rev_involutive.
Qed.

(** [TrimSpace] removes the final CR LF, and nothing else, from a string
    that starts with a bracket and does not end with white space. *)
Lemma TrimSpace_line (body : string) :
  space_before (rev (list_ascii_of_string ("[" +:+ body))) = 0 ->
  TrimSpace (("[" +:+ body) +:+ CRLF) = "[" +:+ body.
Proof.
  intros H. unfold TrimSpace. rewrite bytes_app.
  assert (HL : forall l', TrimLeft (list_ascii_of_string ("[" +:+ body) ++ l')
                          = list_ascii_of_string ("[" +:+ body) ++ l').
  { intros l'. unfold TrimLeft. apply strip_stop.
    change (list_ascii_of_string ("[" +:+ body) ++ l')
      with ("["%char :: (list_ascii_of_string body ++ l')).
    apply space_at_bracket. }
  rewrite HL. clear HL.
  rewrite TrimRight_CRLF by done.
  apply string_of_list_ascii_of_string.
Qed.

Lemma space_before_bracket (r : list ascii) : space_before ("]"%char :: r) = 0.
Proof.
  destruct r as [|a1 [|a2 r]]; [done| |].
  - simpl. unfold two_byte_space. by destruct (byte a1 =? 194)%N.
  - simpl. unfold two_byte_space, three_byte_space.
    change (byte "]") with 93%N.
    destruct (byte a1 =? 194)%N, (byte a2 =? 225)%N, (byte a2 =? 226)%N,
      (byte a2 =? 227)%N, (byte a1 =? 154)%N, (byte a1 =? 128)%N,
      (byte a1 =? 129)%N; reflexivity.
Qed.

Lemma fold_words_bracket (ws : list string) (x : string) :
  fold_left add_word ws ("[" +:+ x) = "[" +:+ fold_left add_word ws x.
Proof.
  revert x. induction ws as [|v ws IH]; intros x; [done|].
  simpl. exact (IH (add_word x v)).
Qed.

Lemma fold_words_join (ws : list string) (w hdr : string) :
  fold_left add_word (w :: ws) hdr = hdr +:+ " " +:+ String.concat " " (w :: ws).
Proof.
  revert w hdr. induction ws as [|v ws IH]; intros w hdr.
  - simpl. done.
  - change (fold_left add_word (w :: v :: ws) hdr)
      with (fold_left add_word (v :: ws) (add_word hdr w)).
    rewrite IH. unfold add_word.
    change (String.concat " " (w :: v :: ws))
      with (w +:+ " " +:+ String.concat " " (v :: ws)).
    by rewrite !string_app_assoc.
Qed.

(** The last byte of the text [Message] and [Blast] build is the closing
    bracket or the end of a field: [TrimSpace] only takes the CR LF off,
    which is then put back. *)
Lemma format_line_fields (ts n : string) (ws : list string) :
  Forall Field ws ->
  format_line ts n ws
  = fold_left add_word ws ("[" +:+ ts +:+ ":" +:+ n +:+ "]") +:+ CRLF.
Proof.
  intros Hws. unfold format_line.
  rewrite fold_words_bracket. rewrite TrimSpace_line; [done|].
  destruct ws as [|w0 ws0] using rev_ind.
  - simpl fold_left.
    change ("[" +:+ ts +:+ ":" +:+ n +:+ "]") with ("[" +:+ (ts +:+ ":" +:+ n +:+ "]")).
    rewrite !bytes_app. change (list_ascii_of_string "]") with ["]"%char].
    rewrite !app_assoc, rev_app_distr. apply space_before_bracket.
  - clear IHws0. apply Forall_app in Hws as [_ Hw].
    apply Forall_singleton in Hw as [Hne Hns].
    rewrite fold_left_app. simpl fold_left. unfold add_word at 1.
    rewrite <- (string_app_assoc "["). rewrite bytes_app.
    change (list_ascii_of_string (" " +:+ w0)) with (SP :: list_ascii_of_string w0).
    apply space_before_word; [|done].
    destruct w0; [done|]. done.
Qed.

Lemma string_app_nil_r (x : string) : x +:+ EmptyString = x.
Proof.
  induction x as [|a x IH]; [done|].
  change (String a (x +:+ EmptyString) = String a x). by f_equal.
Qed.

(** The words, each after one space. *)
Lemma fold_words_spaced (ws : list string) (hdr : string) :
  fold_left add_word ws hdr
  = hdr +:+ String.concat EmptyString (map (String.append " ") ws).
Proof.
  revert hdr. induction ws as [|w ws IH]; intros hdr.
  - simpl. by rewrite string_app_nil_r.
  - change (fold_left add_word (w :: ws) hdr)
      with (fold_left add_word ws (add_word hdr w)).
    rewrite IH. unfold add_word. rewrite string_app_assoc. f_equal.
    destruct ws as [|v ws]; [apply string_app_nil_r|].
    change (String.concat EmptyString (map (String.append " ") (w :: v :: ws)))
      with ((" " +:+ w) +:+ String.concat EmptyString
                               (map (String.append " ") (v :: ws))).
    done.
Qed.

(** The line of [Message] and [Blast], with the loop over the words
    written out: the tag, each word after one space, CR LF, the whole
    trimmed by [strings.TrimSpace], and CR LF again. *)
Lemma format_line_spaced (ts n : string) (ws : list string) :
  format_line ts n ws
  = TrimSpace ("[" +:+ ts +:+ ":" +:+ n +:+ "]"
               +:+ String.concat EmptyString (map (String.append " ") ws)
               +:+ CRLF) +:+ CRLF.
Proof.
  unfold format_line. rewrite fold_words_spaced.
  by rewrite !string_app_assoc.
Qed.

(** For fields, [TrimSpace] only takes the CR LF off. *)
Lemma format_line_fields_spaced (ts n : string) (ws : list string) :
  Forall Field ws ->
  format_line ts n ws
  = "[" +:+ ts +:+ ":" +:+ n +:+ "]"
    +:+ String.concat EmptyString (map (String.append " ") ws) +:+ CRLF.
Proof.
  intros Hws. rewrite format_line_fields by done. rewrite fold_words_spaced.
  by rewrite !string_app_assoc.
Qed.

End StringFacts.

(** ** [strings.Fields] *)

Section FieldsFacts.

(** Cutting a string short does not make it start with white space. *)
Lemma space_at_prefix (x y : list ascii) : space_at (x ++ y) = 0 -> space_at x = 0.
Proof.
  destruct x as [|a0 [|a1 [|a2 x]]]; [done| | |]; simpl.
  - by destruct (is_ascii_space a0).
  - destruct (is_ascii_space a0); [done|].
    by destruct (two_byte_space (byte a0) (byte a1)).
  - done.
Qed.

Lemma clean_no_space (tok rest : list ascii) : clean tok rest -> no_space tok = true.
Proof.
  revert rest. induction tok as [|a tok IH]; intros rest H; [done|].
  cbn [no_space]. apply andb_true_intro. split.
  - apply Nat.eqb_eq. apply (space_at_prefix _ rest). apply (H 0). simpl. lia.
  - apply (IH rest). intros i Hi. apply (H (S i)). simpl. lia.
Qed.

Lemma clean_snoc (tok : list ascii) (a : ascii) (t : list ascii) :
  clean tok (a :: t) -> space_at (a :: t) = 0 -> clean (tok ++ [a]) t.
Proof.
  intros H Ha i Hi. rewrite <- app_assoc. simpl.
  rewrite length_app in Hi. simpl in Hi.
  destruct (decide (i < List.length tok)) as [Hlt|Hge]; [by apply H|].
  assert (i = List.length tok) as -> by lia.
  by rewrite drop_app_length.
Qed.

Lemma flush_fields (cur rest : list ascii) :
  clean (rev cur) rest -> Forall Field (flush cur).
Proof.
  intros H. destruct cur as [|a cur]; [constructor|].
  apply Forall_singleton. split.
  - intros E. apply (f_equal list_ascii_of_string) in E.
    rewrite list_ascii_of_string_of_list_ascii in E. simpl in E.
    by destruct (rev cur).
  - rewrite list_ascii_of_string_of_list_ascii. by apply (clean_no_space _ rest).
Qed.

Lemma fields_scan_fields (n : nat) (cur l : list ascii) :
  clean (rev cur) l -> Forall Field (fields_scan n cur l).
Proof.
  revert cur l. induction n as [|n IH]; intros cur l H.
  - by apply (flush_fields cur l).
  - simpl. destruct l as [|a t]; [by apply (flush_fields cur [])|].
    destruct (space_at (a :: t)) as [|w] eqn:E.
    + apply IH. simpl. by apply clean_snoc.
    + apply Forall_app. split; [by apply (flush_fields cur (a :: t))|].
      apply IH. intros i Hi. simpl in Hi. lia.
Qed.

(** Every token of [strings.Fields] is a field. *)
Lemma Fields_fields (s : string) : Forall Field (Fields s).
Proof. apply fields_scan_fields. intros i Hi. simpl in Hi. lia. Qed.

End FieldsFacts.

(** ** The heap: [Write] and the fan-out loop *)

Section HeapFacts.

Implicit Types (s : State) (c p : ptr) (line : string) (m : gmap string ptr).

Lemma sent_Write c line s p :
  sent (Write c line s) p = if decide (p = c) then sent s p ++ [line] else sent s p.
Proof. unfold sent, Write, store; simpl. by case_decide; subst. Qed.

Lemma heap_Write_ne c line s p : p <> c -> heap (Write c line s) p = heap s p.
Proof. intros H. unfold Write, store; simpl. by case_decide. Qed.

Lemma Nick_Write c line s p : Nick (Write c line s) p = Nick s p.
Proof. unfold Nick, Write, store; simpl. by case_decide; subst. Qed.

Lemma deliver_maps cs line s :
  Rooms (deliver cs line s) = Rooms s /\ Clients (deliver cs line s) = Clients s.
Proof.
  revert s. induction cs as [|c cs IH]; intros s; [done|].
  simpl. destruct (IH (Write c line s)) as [-> ->]. done.
Qed.

Lemma deliver_Nick cs line s p : Nick (deliver cs line s) p = Nick s p.
Proof.
  revert s. induction cs as [|c cs IH]; intros s; [done|].
  simpl. by rewrite IH, Nick_Write.
Qed.

Lemma deliver_other cs line s p :
  p ∉ cs -> heap (deliver cs line s) p = heap s p.
Proof.
  revert s. induction cs as [|c cs IH]; intros s Hp; [done|].
  apply not_elem_of_cons in Hp as [Hne Hp].
  simpl. rewrite IH by done. by apply heap_Write_ne.
Qed.

Lemma deliver_once cs line s p :
  NoDup cs -> p ∈ cs -> sent (deliver cs line s) p = sent s p ++ [line].
Proof.
  revert s. induction cs as [|c cs IH]; intros s Hnd Hp.
  - by apply elem_of_nil in Hp.
  - apply NoDup_cons in Hnd as [Hc Hnd]. simpl.
    apply elem_of_cons in Hp as [-> | Hp].
    + unfold sent at 1. rewrite deliver_other by done.
      fold (sent (Write c line s) c). rewrite sent_Write. by case_decide.
    + rewrite IH by done. rewrite sent_Write.
      case_decide; [subst; done | done].
Qed.

(** The same line is written whatever the order of the visit. *)
Lemma deliver_sent_perm cs cs' line s p :
  cs ≡ₚ cs' -> sent (deliver cs line s) p = sent (deliver cs' line s) p.
Proof.
  intros HP. revert s. induction HP as [|c l l' HP IH|c d l|l l' l'' H1 IH1 H2 IH2];
    intros s; simpl; [done | apply IH | | by rewrite IH1].
  assert (G : forall l t t', sent t p = sent t' p ->
                             sent (deliver l line t) p = sent (deliver l line t') p).
  { clear. intros l. induction l as [|x l IH]; intros t t' E; [done|].
    simpl. apply IH. rewrite !sent_Write. case_decide; by rewrite E. }
  apply G. rewrite !sent_Write. by repeat case_decide.
Qed.

Lemma values_NoDup m : one_key m -> NoDup (map_to_list m).*2.
Proof.
  intros Hm. apply NoDup_fmap_2_strong; [|apply NoDup_map_to_list].
  intros [n1 c1] [n2 c2] H1 H2 E. simpl in E. subst c2.
  apply elem_of_map_to_list in H1, H2. f_equal. eauto.
Qed.

Lemma NoDup_snd_inj (l : list (string * ptr)) x y :
  NoDup l.*2 -> x ∈ l -> y ∈ l -> x.2 = y.2 -> x = y.
Proof.
  induction l as [|z l IH]; intros Hnd Hx Hy E.
  - by apply elem_of_nil in Hx.
  - rewrite fmap_cons in Hnd. apply NoDup_cons in Hnd as [Hz Hnd].
    apply elem_of_cons in Hx as [-> | Hx], Hy as [-> | Hy]; [done | | | by apply IH].
    + destruct Hz. rewrite E. by apply list_elem_of_fmap_2.
    + destruct Hz. rewrite <- E. by apply list_elem_of_fmap_2.
Qed.

Lemma one_key_NoDup m : NoDup (map_to_list m).*2 -> one_key m.
Proof.
  intros Hnd n1 n2 c H1 H2. apply elem_of_map_to_list in H1, H2.
  assert (E : (n1, c) = (n2, c)); [|by injection E].
  by apply (NoDup_snd_inj (map_to_list m)).
Qed.

Lemma elem_of_values m c : c ∈ (map_to_list m).*2 <-> member m c.
Proof.
  rewrite list_elem_of_fmap. split.
  - intros [[n c'] [-> H]]. exists n. by apply elem_of_map_to_list.
  - intros [n H]. exists (n, c). split; [done|]. by apply elem_of_map_to_list.
Qed.

Lemma fanout_maps m line s :
  Rooms (fanout m line s) = Rooms s /\ Clients (fanout m line s) = Clients s.
Proof. apply deliver_maps. Qed.

Lemma fanout_Nick m line s p : Nick (fanout m line s) p = Nick s p.
Proof. apply deliver_Nick. Qed.

Lemma fanout_member m line s p :
  one_key m -> member m p -> sent (fanout m line s) p = sent s p ++ [line].
Proof.
  intros Hm Hp. apply deliver_once; [by apply values_NoDup | by apply elem_of_values].
Qed.

Lemma fanout_other m line s p :
  ~ member m p -> heap (fanout m line s) p = heap s p.
Proof. intros Hp. apply deliver_other. by rewrite elem_of_values. Qed.

End HeapFacts.

(** ** [findRoom] *)

Section FindRoom.

Implicit Types (s : State) (rooms : gmap string Room) (ord : list string).

Lemma scanRooms_Some rooms n ord r :
  scanRooms rooms n ord = Some r ->
  r ∈ ord /\ exists room, rooms !! r = Some room /\ is_Some (room !! n).
Proof.
  induction ord as [|r0 ord IH]; [done|]. simpl.
  destruct (rooms !! r0) as [room|] eqn:E.
  - case_bool_decide as Hn.
    + intros [= <-]. split; [left | eauto].
    + intros H. destruct (IH H) as [? ?]. split; [by right | done].
  - intros H. destruct (IH H) as [? ?]. split; [by right | done].
Qed.

Lemma scanRooms_None rooms n ord r room :
  scanRooms rooms n ord = None -> r ∈ ord -> rooms !! r = Some room ->
  room !! n = None.
Proof.
  induction ord as [|r0 ord IH]; intros H Hr E.
  - by apply elem_of_nil in Hr.
  - simpl in H. apply elem_of_cons in Hr as [-> | Hr].
    + rewrite E in H. case_bool_decide as Hn; [done|].
      by apply eq_None_not_Some.
    + destruct (rooms !! r0); [case_bool_decide; [done|] |]; eauto.
Qed.

Lemma range_order_elem s ord r :
  range_order s ord -> r ∈ ord <-> is_Some (Rooms s !! r).
Proof.
  intros H. unfold range_order in H. rewrite H.
  rewrite list_elem_of_fmap. split.
  - intros [[r' room] [-> Hin]]. apply elem_of_map_to_list in Hin. eauto.
  - intros [room E]. exists (r, room). split; [done|]. by apply elem_of_map_to_list.
Qed.

Lemma findRoom_in_room ord cl s r :
  findRoom ord cl s = inl r -> in_room s (Nick s cl) r.
Proof.
  unfold findRoom. destruct (scanRooms _ _ _) eqn:E; [|done].
  intros [= <-]. by apply scanRooms_Some in E as [_ ?].
Qed.

Lemma findRoom_unseated ord cl s :
  unseated s (Nick s cl) -> findRoom ord cl s = inr (NotFoundError (Nick s cl)).
Proof.
  intros H. unfold findRoom. destruct (scanRooms _ _ _) eqn:E; [|done].
  apply scanRooms_Some in E as [_ ?]. by destruct (H s0).
Qed.

Lemma findRoom_found ord cl s r :
  range_order s ord -> in_room s (Nick s cl) r -> exists r', findRoom ord cl s = inl r'.
Proof.
  intros Hord (room & E & Hn). unfold findRoom.
  destruct (scanRooms _ _ _) eqn:ES; [eauto|].
  assert (r ∈ ord) as Hr by (apply (range_order_elem s); eauto).
  rewrite (scanRooms_None _ _ _ _ _ ES Hr E) in Hn. by destruct Hn.
Qed.

Lemma findRoom_only ord cl s r :
  range_order s ord -> in_room s (Nick s cl) r -> only_room s (Nick s cl) r ->
  findRoom ord cl s = inl r.
Proof.
  intros Hord Hin Honly. destruct (findRoom_found _ _ _ _ Hord Hin) as [r' E].
  rewrite E. f_equal. apply Honly. by apply findRoom_in_room in E.
Qed.

(** The predicates on rooms, read off the list [rooms_of]. *)
Lemma in_room_rooms_of s n r : in_room s n r <-> r ∈ rooms_of s n.
Proof.
  unfold in_room, rooms_of. rewrite list_elem_of_fmap. split.
  - intros (room & E & Hn). exists (r, room). split; [done|].
    apply list_elem_of_filter. split; [done|]. by apply elem_of_map_to_list.
  - intros ([r' room] & -> & Hin). apply list_elem_of_filter in Hin as [Hn Hin].
    apply elem_of_map_to_list in Hin. eauto.
Qed.

Lemma only_room_rooms_of s n r : rooms_of s n = [r] -> only_room s n r.
Proof.
  intros E r' H. apply in_room_rooms_of in H. rewrite E in H.
  by apply list_elem_of_singleton in H.
Qed.

Lemma unseated_rooms_of s n : rooms_of s n = [] -> unseated s n.
Proof.
  intros E r H. apply in_room_rooms_of in H. rewrite E in H.
  by apply elem_of_nil in H.
Qed.

Lemma only_room_at_most s n r : only_room s n r -> at_most_one_room s n.
Proof. intros H r1 r2 H1 H2. by rewrite (H r1 H1), (H r2 H2). Qed.

Lemma unseated_at_most s n : unseated s n -> at_most_one_room s n.
Proof. intros H r1 r2 H1 _. by destruct (H r1). Qed.

Lemma own_key_list s c :
  Forall (fun p : string * Room =>
            Forall (fun q : string * ptr => q.2 = c -> q.1 = Nick s c)
                   (map_to_list p.2))
         (map_to_list (Rooms s)) ->
  own_key s c.
Proof.
  intros H r room n Hr Hn. rewrite Forall_forall in H.
  apply elem_of_map_to_list in Hr. specialize (H _ Hr). simpl in H.
  rewrite Forall_forall in H. apply elem_of_map_to_list in Hn.
  by apply (H _ Hn).
Qed.

End FindRoom.

(** ** [JoinRoom] step by step *)

Section JoinFacts.

Implicit Types (s : State) (cl : ptr) (ord : list string) (rn r n : string).

Lemma clientExists_true n s : clientExists n s = true <-> is_Some (Clients s !! n).
Proof. unfold clientExists. apply bool_decide_eq_true. Qed.

Lemma clientExists_false n s : clientExists n s = false <-> Clients s !! n = None.
Proof.
  unfold clientExists. rewrite bool_decide_eq_false. symmetry. apply eq_None_not_Some.
Qed.

Lemma tryDelete_heap ord cl s :
  heap (tryDeleteFromRoom ord cl s) = heap s
  /\ Clients (tryDeleteFromRoom ord cl s) = Clients s.
Proof. unfold tryDeleteFromRoom. by destruct (findRoom ord cl s). Qed.

(** What [joinRoom] leaves in the maps. *)
Lemma joinRoom_unfold rn cl s :
  joinRoom rn cl s =
    (match Clients s !! Nick s cl with
     | Some _ => Some ClientExistsError
     | None => None
     end,
     mkState (<[rn := <[Nick s cl := cl]> (default ∅ (Rooms s !! rn))]> (Rooms s))
             (match Clients s !! Nick s cl with
              | Some _ => Clients s
              | None => <[Nick s cl := cl]> (Clients s)
              end)
             (heap s)).
Proof.
  destruct s as [R C h].
  unfold joinRoom, roomExists, addClient, clientExists, createRoom,
    set_Rooms, set_Clients, Nick; simpl.
  assert (HR : forall f : Room -> Room,
             alter f rn (if negb (bool_decide (is_Some (R !! rn)))
                         then <[rn := ∅]> R else R)
             = <[rn := f (default ∅ (R !! rn))]> R).
  { intros f. apply map_eq. intros k.
    destruct (decide (k = rn)) as [->|Hk].
    - rewrite lookup_alter_eq, lookup_insert_eq.
      case_bool_decide as Hr; simpl.
      + destruct Hr as [room Hr]. by rewrite Hr.
      + apply eq_None_not_Some in Hr. by rewrite lookup_insert_eq, Hr.
    - rewrite lookup_alter_ne, lookup_insert_ne by done.
      case_bool_decide; simpl; [done | by rewrite lookup_insert_ne]. }
  case_bool_decide as Hr; simpl;
    (destruct (C !! nick (h cl)) as [c|] eqn:E;
     [ rewrite bool_decide_eq_true_2 by eauto
     | rewrite bool_decide_eq_false_2 by (by intros [? ?]) ]);
    simpl; specialize (HR (insert (nick (h cl)) cl));
    rewrite ?bool_decide_eq_true_2 in HR by done;
    rewrite ?bool_decide_eq_false_2 in HR by done;
    simpl in HR; by rewrite HR.
Qed.

Lemma JoinRoom_unfold ord rn cl s :
  JoinRoom ord rn cl s = joinRoom rn cl (tryDeleteFromRoom ord cl s).
Proof. unfold JoinRoom. by destruct (joinRoom _ _ _) as [[e|] s2]. Qed.

(** The error of [JoinRoom] only depends on the flat index. *)
Lemma JoinRoom_fst ord rn cl s :
  fst (JoinRoom ord rn cl s)
  = match Clients s !! Nick s cl with
    | Some _ => Some ClientExistsError
    | None => None
    end.
Proof.
  rewrite JoinRoom_unfold, joinRoom_unfold. simpl.
  destruct (tryDelete_heap ord cl s) as [Hh Hc].
  unfold Nick. by rewrite Hh, Hc.
Qed.

Lemma JoinRoom_heap ord rn cl s : heap (snd (JoinRoom ord rn cl s)) = heap s.
Proof.
  rewrite JoinRoom_unfold, joinRoom_unfold. simpl. apply tryDelete_heap.
Qed.

Lemma JoinRoom_Clients ord rn cl s :
  Clients (snd (JoinRoom ord rn cl s))
  = match Clients s !! Nick s cl with
    | Some _ => Clients s
    | None => <[Nick s cl := cl]> (Clients s)
    end.
Proof.
  rewrite JoinRoom_unfold, joinRoom_unfold. simpl.
  destruct (tryDelete_heap ord cl s) as [Hh Hc].
  unfold Nick. by rewrite Hh, Hc.
Qed.

Lemma JoinRoom_Rooms ord rn cl s :
  Rooms (snd (JoinRoom ord rn cl s))
  = <[rn := <[Nick s cl := cl]>
              (default ∅ (Rooms (tryDeleteFromRoom ord cl s) !! rn))]>
      (Rooms (tryDeleteFromRoom ord cl s)).
Proof.
  rewrite JoinRoom_unfold, joinRoom_unfold. simpl.
  destruct (tryDelete_heap ord cl s) as [Hh Hc].
  unfold Nick. by rewrite Hh.
Qed.

(** After [JoinRoom] the target room holds the client under its
    nickname. *)
Lemma JoinRoom_seated ord rn cl s :
  seated (snd (JoinRoom ord rn cl s)) (Nick s cl) cl rn.
Proof.
  unfold seated. rewrite JoinRoom_Rooms. eexists. rewrite lookup_insert_eq.
  split; [done|]. apply lookup_insert_eq.
Qed.

(** [tryDeleteFromRoom] on the rooms. *)
Lemma tryDelete_Rooms_found ord cl s r :
  findRoom ord cl s = inl r ->
  Rooms (tryDeleteFromRoom ord cl s) = alter (delete (Nick s cl)) r (Rooms s).
Proof. unfold tryDeleteFromRoom. by intros ->. Qed.

Lemma tryDelete_Rooms_none ord cl s e :
  findRoom ord cl s = inr e -> tryDeleteFromRoom ord cl s = s.
Proof. unfold tryDeleteFromRoom. by intros ->. Qed.

(** When at most one room has an entry for the nickname, no room has one
    after [tryDeleteFromRoom]. *)
Lemma tryDelete_unseats ord cl s :
  range_order s ord ->
  at_most_one_room s (Nick s cl) ->
  forall r room, Rooms (tryDeleteFromRoom ord cl s) !! r = Some room ->
                 room !! Nick s cl = None.
Proof.
  intros Hord Huniq r room.
  destruct (findRoom ord cl s) as [r0|e] eqn:E.
  - rewrite (tryDelete_Rooms_found _ _ _ _ E). rewrite lookup_alter.
    pose proof (findRoom_in_room _ _ _ _ E) as Hin.
    case_decide as Hr.
    + subst r0. destruct (Rooms s !! r) as [room0|]; [|done].
      simpl. intros [= <-]. apply lookup_delete_eq.
    + intros Hroom. apply eq_None_not_Some. intros Hn.
      apply Hr. apply Huniq; [done|]. by exists room.
  - rewrite (tryDelete_Rooms_none _ _ _ _ E). intros Hroom.
    apply eq_None_not_Some. intros Hn.
    destruct (findRoom_found ord cl s r Hord) as [r' E']; [by exists room|].
    congruence.
Qed.

(** [tryDeleteFromRoom] creates no room and no entry. *)
Lemma tryDelete_sub ord cl s r room1 :
  Rooms (tryDeleteFromRoom ord cl s) !! r = Some room1 ->
  exists room0, Rooms s !! r = Some room0
                /\ forall k v, room1 !! k = Some v -> room0 !! k = Some v.
Proof.
  destruct (findRoom ord cl s) as [r0|e] eqn:E.
  - rewrite (tryDelete_Rooms_found _ _ _ _ E), lookup_alter.
    case_decide as Hr.
    + subst r0. destruct (Rooms s !! r) as [room0|]; [|done].
      simpl. intros [= <-]. exists room0. split; [done|].
      intros k v Hk. by apply lookup_delete_Some in Hk as [_ ?].
    + intros H. eauto.
  - rewrite (tryDelete_Rooms_none _ _ _ _ E). eauto.
Qed.

End JoinFacts.

(** ** Claims on [JoinRoom] *)

(** C1 (as amended).  [JoinRoom] always seats the client in the target
    room.  What it returns is decided by the flat index at the time of the
    call alone: no error when the flat index has no entry for the nickname
    of the client, the error of [addClient] when it has one (whichever
    client the entry points to).  After any [JoinRoom] the flat index has
    an entry for the nickname, so a [JoinRoom] of the same client that
    directly follows returns the error, whatever the room. *)
Theorem JoinRoom_error_iff_indexed (ord : list string) (rn : string) (cl : ptr)
  (s : State) :
  seated (JoinRoom ord rn cl s).2 (Nick s cl) cl rn
  /\ ((Clients s !! Nick s cl = None /\ (JoinRoom ord rn cl s).1 = None)
      \/ (is_Some (Clients s !! Nick s cl)
          /\ (JoinRoom ord rn cl s).1 = Some ClientExistsError))
  /\ is_Some (Clients (JoinRoom ord rn cl s).2 !! Nick s cl)
  /\ forall ord' rn',
       (JoinRoom ord' rn' cl (JoinRoom ord rn cl s).2).1 = Some ClientExistsError.
Proof.
  assert (Hidx : is_Some (Clients (JoinRoom ord rn cl s).2 !! Nick s cl)).
  { rewrite JoinRoom_Clients.
    destruct (Clients s !! Nick s cl) eqn:E; [by rewrite E|].
    by rewrite lookup_insert_eq. }
  split; [apply JoinRoom_seated|]. split; [|split; [done|]].
  - rewrite JoinRoom_fst. destruct (Clients s !! Nick s cl) eqn:E; eauto.
  - intros ord' rn'. rewrite JoinRoom_fst.
    assert (Hn : Nick (JoinRoom ord rn cl s).2 cl = Nick s cl).
    { unfold Nick. by rewrite JoinRoom_heap. }
    rewrite Hn. by destruct Hidx as [c ->].
Qed.

(** C1, as stated, fails: the first join of [A] succeeds, its second join
    (to another room) returns an error. *)
Lemma JoinRoom_second_join_error :
  (JoinRoom [] Demo.DefaultRoom Demo.A (NewServer Demo.clients)).1 = None
  /\ range_order Demo.s1 [Demo.DefaultRoom]
  /\ (JoinRoom [Demo.DefaultRoom] "gotham" Demo.A Demo.s1).1
     = Some "Client already exists".
Proof. split; [|split]; vm_compute; reflexivity. Qed.

(** X24.  For a client whose nickname is in the flat index, [JoinRoom]
    returns the error ["Client already exists"], and yet the rooms have
    changed: the target room holds the client; and when a room [prev]
    other than the target stores the client under its nickname and no
    other room has an entry for that nickname, [prev] has lost that entry
    and nothing else, and the state returned is not the state given. *)
Theorem JoinRoom_existing_mutates (ord : list string) (rn : string) (cl : ptr)
  (s : State) :
  is_Some (Clients s !! Nick s cl) ->
  (JoinRoom ord rn cl s).1 = Some "Client already exists"
  /\ seated (JoinRoom ord rn cl s).2 (Nick s cl) cl rn
  /\ forall prev proom,
       range_order s ord ->
       Rooms s !! prev = Some proom -> proom !! Nick s cl = Some cl ->
       only_room s (Nick s cl) prev -> prev <> rn ->
       Rooms (JoinRoom ord rn cl s).2 !! prev = Some (delete (Nick s cl) proom)
       /\ (JoinRoom ord rn cl s).2 <> s.
Proof.
  intros [c Hc]. split; [|split].
  - by rewrite JoinRoom_fst, Hc.
  - apply JoinRoom_seated.
  - intros prev proom Hord Hprev Hcl Honly Hne.
    assert (Hin : in_room s (Nick s cl) prev) by (exists proom; eauto).
    pose proof (findRoom_only _ _ _ _ Hord Hin Honly) as Hf.
    assert (HR : Rooms (JoinRoom ord rn cl s).2 !! prev
                 = Some (delete (Nick s cl) proom)).
    { rewrite JoinRoom_Rooms, lookup_insert_ne by done.
      rewrite (tryDelete_Rooms_found _ _ _ _ Hf), lookup_alter_eq.
      by rewrite Hprev. }
    split; [done|]. intros E. rewrite E, Hprev in HR.
    injection HR as HR. apply (f_equal (fun m => m !! Nick s cl)) in HR.
    rewrite lookup_delete_eq in HR. congruence.
Qed.

Lemma JoinRoom_existing_mutates_witness :
  (JoinRoom [Demo.DefaultRoom] "gotham" Demo.B Demo.s2).1
  = Some "Client already exists"
  /\ Rooms (JoinRoom [Demo.DefaultRoom] "gotham" Demo.B Demo.s2).2 !! Demo.DefaultRoom
     = Some (<["a" := Demo.A]> ∅)
  /\ (JoinRoom [Demo.DefaultRoom] "gotham" Demo.B Demo.s2).2 <> Demo.s2.
Proof.
  assert (Hidx : is_Some (Clients Demo.s2 !! Nick Demo.s2 Demo.B))
    by (vm_compute; eauto).
  destruct (JoinRoom_existing_mutates [Demo.DefaultRoom] "gotham" Demo.B Demo.s2 Hidx)
    as (Herr & _ & Hprev).
  split; [exact Herr|].
  destruct (Hprev Demo.DefaultRoom (<["b" := Demo.B]> (<["a" := Demo.A]> ∅)))
    as [HR Hne].
  - vm_compute. reflexivity.
  - vm_compute. reflexivity.
  - vm_compute. reflexivity.
  - apply only_room_rooms_of. vm_compute. reflexivity.
  - done.
  - split; [|exact Hne]. rewrite HR. vm_compute. reflexivity.
Defined.

(** X23.  In a state where at most one room has an entry for the nickname
    of the client, and the rooms hold the client under that nickname only,
    a second [JoinRoom] with the same room and client changes nothing: the
    state after it is the state before it, the room holds the client under
    exactly one key, and [findRoom] gives that room before and after. *)
Theorem JoinRoom_twice (ord1 ord2 : list string) (rn : string) (cl : ptr)
  (s : State) :
  range_order s ord1 ->
  range_order (JoinRoom ord1 rn cl s).2 ord2 ->
  at_most_one_room s (Nick s cl) ->
  own_key s cl ->
  (JoinRoom ord2 rn cl (JoinRoom ord1 rn cl s).2).2 = (JoinRoom ord1 rn cl s).2
  /\ (exists room,
        Rooms (JoinRoom ord2 rn cl (JoinRoom ord1 rn cl s).2).2 !! rn = Some room
        /\ forall n, room !! n = Some cl <-> n = Nick s cl)
  /\ findRoom ord2 cl (JoinRoom ord1 rn cl s).2 = inl rn
  /\ forall ord3,
       range_order (JoinRoom ord2 rn cl (JoinRoom ord1 rn cl s).2).2 ord3 ->
       findRoom ord3 cl (JoinRoom ord2 rn cl (JoinRoom ord1 rn cl s).2).2 = inl rn.
Proof.
  intros Hord1 Hord2 Huniq Hown.
  set (s1 := (JoinRoom ord1 rn cl s).2) in *.
  set (n := Nick s cl).
  assert (Hn1 : Nick s1 cl = n).
  { unfold Nick, s1. by rewrite JoinRoom_heap. }
  assert (Hseat : seated s1 n cl rn) by apply JoinRoom_seated.
  assert (Honly : only_room s1 n rn).
  { intros r' (room & Hroom & Hin).
    destruct (decide (r' = rn)) as [|Hne]; [done|]. exfalso.
    unfold s1 in Hroom. rewrite JoinRoom_Rooms, lookup_insert_ne in Hroom by done.
    pose proof (tryDelete_unseats _ _ _ Hord1 Huniq _ _ Hroom) as Hnone.
    fold n in Hnone. rewrite Hnone in Hin. by destruct Hin. }
  assert (Hfind : findRoom ord2 cl s1 = inl rn).
  { apply findRoom_only; rewrite ?Hn1; [done | | done].
    destruct Hseat as (room & ? & ?). exists room. eauto. }
  assert (Hsame : (JoinRoom ord2 rn cl s1).2 = s1).
  { assert (HC : is_Some (Clients s1 !! n)).
    { unfold s1. rewrite JoinRoom_Clients. fold n.
      destruct (Clients s !! n) eqn:E; [by rewrite E | by rewrite lookup_insert_eq]. }
    destruct HC as [c HC].
    assert (HR : Rooms (JoinRoom ord2 rn cl s1).2 = Rooms s1).
    { rewrite JoinRoom_Rooms, (tryDelete_Rooms_found _ _ _ _ Hfind), Hn1.
      destruct Hseat as (room & Hroom & Hcl).
      rewrite lookup_alter_eq, Hroom. simpl.
      rewrite insert_alter_eq, insert_delete_eq.
      rewrite (insert_id room) by done. by apply insert_id. }
    pose proof (JoinRoom_Clients ord2 rn cl s1) as HCl.
    rewrite Hn1, HC in HCl.
    pose proof (JoinRoom_heap ord2 rn cl s1) as Hh.
    destruct (JoinRoom ord2 rn cl s1).2 as [R2 C2 h2], s1 as [R1 C1 h1].
    simpl in *. by subst. }
  split; [done|]. rewrite Hsame. split; [|split; [done|]].
  - unfold s1. rewrite JoinRoom_Rooms. fold n. eexists.
    rewrite lookup_insert_eq. split; [done|]. intros n'. split.
    + intros H. destruct (decide (n' = n)) as [|Hne]; [done|].
      rewrite lookup_insert_ne in H by done.
      destruct (Rooms (tryDeleteFromRoom ord1 cl s) !! rn) as [room1|] eqn:E;
        [|done].
      simpl in H. destruct (tryDelete_sub _ _ _ _ _ E) as (room0 & Hr0 & Hsub).
      apply (Hown _ _ _ Hr0). by apply Hsub.
    + intros ->. apply lookup_insert_eq.
  - intros ord3 Hord3. apply findRoom_only; rewrite ?Hn1; [done | | done].
    destruct Hseat as (room & ? & ?). exists room. eauto.
Qed.

Lemma JoinRoom_twice_witness :
  (JoinRoom ["gotham"; Demo.DefaultRoom] "gotham" Demo.B Demo.s3).2 = Demo.s3
  /\ findRoom ["gotham"; Demo.DefaultRoom] Demo.B Demo.s3 = inl "gotham".
Proof.
  destruct (JoinRoom_twice [Demo.DefaultRoom] ["gotham"; Demo.DefaultRoom]
              "gotham" Demo.B Demo.s2) as (H1 & _ & H2 & _).
  - vm_compute. reflexivity.
  - vm_compute. reflexivity.
  - apply (only_room_at_most _ _ Demo.DefaultRoom), only_room_rooms_of.
    vm_compute. reflexivity.
  - apply own_key_list. vm_compute. repeat constructor; discriminate.
  - split; [exact H1 | exact H2].
Defined.

(** ** Claims on [ChangeNick] *)

Section ChangeNickFacts.

Implicit Types (s : State) (cl : ptr) (ord : list string).

(** The successful path of [ChangeNick], in one step. *)
Lemma ChangeNick_renames ord from to s cl r :
  Clients s !! to = None -> Clients s !! from = Some cl ->
  findRoom ord cl s = inl r ->
  ChangeNick ord from to s
  = (None,
     mkState (alter (insert to cl) r (alter (delete from) r (Rooms s)))
             (<[to := cl]> (delete from (Clients s)))
             (store cl (set_nick to (heap s cl)) (heap s))).
Proof.
  intros Hto Hfrom Hf. unfold ChangeNick.
  rewrite (proj2 (clientExists_false to s) Hto), Hfrom, Hf. done.
Qed.

Lemma ChangeNick_not_found ord from to s cl e :
  Clients s !! to = None -> Clients s !! from = Some cl ->
  findRoom ord cl s = inr e ->
  ChangeNick ord from to s = (Some e, s).
Proof.
  intros Hto Hfrom Hf. unfold ChangeNick.
  rewrite (proj2 (clientExists_false to s) Hto), Hfrom, Hf. done.
Qed.

Lemma ChangeNick_taken ord from to s :
  is_Some (Clients s !! to) ->
  ChangeNick ord from to s = (Some (NameTakenError to), s).
Proof.
  intros Hb. unfold ChangeNick. by rewrite (proj2 (clientExists_true to s) Hb).
Qed.

Lemma ChangeNick_unknown ord from to s :
  Clients s !! to = None -> Clients s !! from = None ->
  ChangeNick ord from to s = (Some (UnknownClientError to), s).
Proof.
  intros Hto Hfrom. unfold ChangeNick.
  by rewrite (proj2 (clientExists_false to s) Hto), Hfrom.
Qed.

End ChangeNickFacts.

(** C4.  When the new nickname is in the flat index, also when it is the
    old one, [ChangeNick] returns the name-taken error and the state it
    returns is the state it was given: nicknames, flat index and rooms are
    untouched. *)
Theorem ChangeNick_name_taken (ord : list string) (a b : string) (s : State) :
  is_Some (Clients s !! b) ->
  ChangeNick ord a b s = (Some (NameTakenError b), s).
Proof. apply ChangeNick_taken. Qed.

Lemma ChangeNick_name_taken_witness :
  ChangeNick [] "a" "b" Demo.s3 = (Some (NameTakenError "b"), Demo.s3)
  /\ ChangeNick [] "a" "a" Demo.s3 = (Some (NameTakenError "a"), Demo.s3).
Proof.
  split; apply ChangeNick_name_taken; vm_compute; eauto.
Defined.

(** X22.  When the flat index holds the client under the old nickname,
    which is its nickname, and has no entry for the new one, room [r]
    stores the client under the old nickname, no other room has an entry
    for the old nickname and no room has an entry for the new one,
    [ChangeNick] succeeds; afterwards the nickname of the client is
    the new one, [findRoom] on the client returns [r] whatever the order of
    the visit, [r] and the flat index hold the client under the new
    nickname, and neither has an entry for the old one. *)
Theorem ChangeNick_seated (ord : list string) (oldNick newNick : string)
  (cl : ptr) (r : string) (s : State) :
  range_order s ord ->
  Clients s !! oldNick = Some cl ->
  Nick s cl = oldNick ->
  Clients s !! newNick = None ->
  seated s oldNick cl r ->
  only_room s oldNick r ->
  unseated s newNick ->
  (ChangeNick ord oldNick newNick s).1 = None
  /\ Nick (ChangeNick ord oldNick newNick s).2 cl = newNick
  /\ (forall ord', range_order (ChangeNick ord oldNick newNick s).2 ord' ->
                   findRoom ord' cl (ChangeNick ord oldNick newNick s).2 = inl r)
  /\ seated (ChangeNick ord oldNick newNick s).2 newNick cl r
  /\ Clients (ChangeNick ord oldNick newNick s).2 !! newNick = Some cl
  /\ unseated (ChangeNick ord oldNick newNick s).2 oldNick
  /\ Clients (ChangeNick ord oldNick newNick s).2 !! oldNick = None.
Proof.
  intros Hord Hold Hnick Hnew (room & Hroom & Hcl) Honly Hun.
  assert (Hne : oldNick <> newNick) by congruence.
  assert (Hf : findRoom ord cl s = inl r).
  { apply findRoom_only; rewrite ?Hnick; [done | | done]. exists room. eauto. }
  rewrite (ChangeNick_renames ord oldNick newNick s cl r) by done.
  simpl.
  assert (HR : alter (insert newNick cl) r (alter (delete oldNick) r (Rooms s))
               = <[r := <[newNick := cl]> (delete oldNick room)]> (Rooms s)).
  { apply map_eq. intros k. destruct (decide (k = r)) as [->|Hk].
    - by rewrite !lookup_alter_eq, lookup_insert_eq, Hroom.
    - by rewrite !lookup_alter_ne, lookup_insert_ne. }
  rewrite HR. clear HR.
  set (s' := mkState _ _ _).
  assert (Hn' : Nick s' cl = newNick).
  { unfold Nick, s', store; simpl. by rewrite decide_True. }
  assert (Hseat' : seated s' newNick cl r).
  { eexists. simpl. rewrite lookup_insert_eq. split; [done|].
    apply lookup_insert_eq. }
  assert (Honly' : only_room s' newNick r).
  { intros r' (room' & Hroom' & Hin).
    destruct (decide (r' = r)) as [|Hr]; [done|]. exfalso.
    simpl in Hroom'. rewrite lookup_insert_ne in Hroom' by done.
    apply (Hun r'). by exists room'. }
  split; [done|]. split; [done|]. split; [|split; [done|split; [|split]]].
  - intros ord' Hord'. apply findRoom_only; rewrite ?Hn'; [done | | done].
    destruct Hseat' as (room' & ? & ?). exists room'. eauto.
  - simpl. apply lookup_insert_eq.
  - intros r' (room' & Hroom' & Hin). simpl in Hroom'.
    destruct (decide (r' = r)) as [->|Hr].
    + rewrite lookup_insert_eq in Hroom'. injection Hroom' as <-.
      rewrite lookup_insert_ne, lookup_delete_eq in Hin by done.
      by destruct Hin.
    + rewrite lookup_insert_ne in Hroom' by done.
      apply Hr, Honly. by exists room'.
  - simpl. rewrite lookup_insert_ne by done. apply lookup_delete_eq.
Qed.

Lemma ChangeNick_seated_witness :
  (ChangeNick ["gotham"; Demo.DefaultRoom] "b" "robin" Demo.s3).1 = None
  /\ findRoom [Demo.DefaultRoom; "gotham"] Demo.B
       (ChangeNick ["gotham"; Demo.DefaultRoom] "b" "robin" Demo.s3).2
     = inl "gotham"
  /\ Clients (ChangeNick ["gotham"; Demo.DefaultRoom] "b" "robin" Demo.s3).2 !! "b"
     = None.
Proof.
  destruct (ChangeNick_seated ["gotham"; Demo.DefaultRoom] "b" "robin" Demo.B
              "gotham" Demo.s3) as (H1 & _ & H2 & _ & _ & _ & H3).
  - vm_compute. reflexivity.
  - vm_compute. reflexivity.
  - vm_compute. reflexivity.
  - vm_compute. reflexivity.
  - eexists. split; vm_compute; reflexivity.
  - apply only_room_rooms_of. vm_compute. reflexivity.
  - apply unseated_rooms_of. vm_compute. reflexivity.
  - split; [exact H1|]. split; [|exact H3]. apply H2.
    vm_compute. apply Permutation_swap.
Defined.

(** ** Claims on [Message] and [Blast] *)

Section FanoutFacts.

Implicit Types (s : State) (cl : ptr) (ord : list string).

(** For a non-empty list of fields the line is the tag, a space, and the
    fields joined with single spaces, ended by CR LF. *)
Lemma format_line_joined ts n (ws : list string) :
  ws <> [] -> Forall Field ws ->
  format_line ts n ws
  = "[" +:+ ts +:+ ":" +:+ n +:+ "] " +:+ String.concat " " ws +:+ CRLF.
Proof.
  intros Hne Hws. rewrite format_line_fields by done.
  destruct ws as [|w ws]; [done|].
  rewrite fold_words_join.
  change ("[" +:+ ts +:+ ":" +:+ n +:+ "]") with ("[" +:+ (ts +:+ ":" +:+ n +:+ "]")).
  rewrite !string_app_assoc. reflexivity.
Qed.

Lemma Message_fanout ts ord ws cl s r room :
  findRoom ord cl s = inl r -> Rooms s !! r = Some room ->
  Message ts ord ws cl s = (None, fanout room (format_line ts (Nick s cl) ws) s).
Proof. intros Hf Hr. unfold Message. by rewrite Hf, Hr. Qed.

Lemma Message_not_found ts ord ws cl s e :
  findRoom ord cl s = inr e -> Message ts ord ws cl s = (Some e, s).
Proof. intros Hf. unfold Message. by rewrite Hf. Qed.

End FanoutFacts.

(** C6 (as amended).  For a client [cl] that room [R] holds under its
    nickname, when no other room has an entry for that nickname and [R]
    holds no client twice, [Message] on a non-empty word list succeeds,
    appends exactly one line to what every member of [R] was sent ([cl] is
    one of them), and leaves every other client as it was.  The line is
    [strings.TrimSpace] of the tag with the timestamp and the nickname,
    each word after one space and CR LF, followed by CR LF; for fields
    [ws] it is the tag, then the words joined with single spaces.  When no
    room has an entry for the nickname of [cl], [Message] returns the
    not-found error and the state is untouched. *)
Theorem Message_broadcast (ts : string) (ord : list string) (ws : list string)
  (cl : ptr) (s : State) :
  (forall R room,
     range_order s ord -> ws <> [] ->
     Rooms s !! R = Some room -> room !! Nick s cl = Some cl ->
     only_room s (Nick s cl) R -> one_key room ->
     (Message ts ord ws cl s).1 = None
     /\ (forall c, member room c ->
                   sent (Message ts ord ws cl s).2 c
                   = sent s c ++ [format_line ts (Nick s cl) ws])
     /\ member room cl
     /\ (forall c, ~ member room c -> heap (Message ts ord ws cl s).2 c = heap s c)
     /\ Rooms (Message ts ord ws cl s).2 = Rooms s
     /\ Clients (Message ts ord ws cl s).2 = Clients s
     /\ (Forall Field ws ->
         format_line ts (Nick s cl) ws
         = "[" +:+ ts +:+ ":" +:+ Nick s cl +:+ "] "
               +:+ String.concat " " ws +:+ CRLF))
  /\ format_line ts (Nick s cl) ws
     = TrimSpace ("[" +:+ ts +:+ ":" +:+ Nick s cl +:+ "]"
                  +:+ String.concat EmptyString (map (String.append " ") ws)
                  +:+ CRLF) +:+ CRLF
  /\ (unseated s (Nick s cl) ->
      Message ts ord ws cl s = (Some (NotFoundError (Nick s cl)), s)).
Proof.
  split; [|split; [apply format_line_spaced|]].
  - intros R room Hord Hne HR Hcl Honly Hinj.
    assert (Hf : findRoom ord cl s = inl R).
    { apply findRoom_only; [done | | done]. exists room. eauto. }
    rewrite (Message_fanout ts ord ws cl s R room Hf HR). simpl.
    destruct (fanout_maps room (format_line ts (Nick s cl) ws) s) as [HRo HCl].
    repeat split; try done.
    + intros c Hc. by apply fanout_member.
    + by exists (Nick s cl).
    + intros c Hc. by apply fanout_other.
    + intros Hws. by apply format_line_joined.
  - intros Hun. apply Message_not_found. by apply findRoom_unseated.
Qed.

Lemma Message_broadcast_witness :
  sent (Message "T" [Demo.DefaultRoom] ["hi"; "all"] Demo.A Demo.s2).2 Demo.B
  = ["[T:a] hi all" +:+ CRLF]
  /\ heap (Message "T" [Demo.DefaultRoom; "gotham"] ["hi"] Demo.A Demo.s3).2 Demo.B
     = heap Demo.s3 Demo.B
  /\ Message "T" ["lobby"] ["hi"] Demo.A Demo.lonely
     = (Some "a does not have a room", Demo.lonely).
Proof.
  split; [|split].
  - destruct (Message_broadcast "T" [Demo.DefaultRoom] ["hi"; "all"] Demo.A Demo.s2)
      as [H _].
    destruct (H Demo.DefaultRoom (<["b" := Demo.B]> (<["a" := Demo.A]> ∅)))
      as (_ & Hm & _ & _ & _ & _ & Hline).
    + vm_compute. reflexivity.
    + done.
    + vm_compute. reflexivity.
    + vm_compute. reflexivity.
    + apply only_room_rooms_of. vm_compute. reflexivity.
    + apply one_key_NoDup. apply (bool_decide_unpack _). vm_compute. exact I.
    + rewrite (Hm Demo.B) by (exists "b"; vm_compute; reflexivity).
      rewrite Hline.
      * vm_compute. reflexivity.
      * repeat constructor; done.
  - destruct (Message_broadcast "T" [Demo.DefaultRoom; "gotham"] ["hi"] Demo.A Demo.s3)
      as [H _].
    destruct (H Demo.DefaultRoom (<["a" := Demo.A]> ∅))
      as (_ & _ & _ & Hother & _).
    + vm_compute. apply Permutation_swap.
    + done.
    + vm_compute. reflexivity.
    + vm_compute. reflexivity.
    + apply only_room_rooms_of. vm_compute. reflexivity.
    + apply one_key_NoDup. apply (bool_decide_unpack _). vm_compute. exact I.
    + apply Hother. intros [n Hn].
      destruct (decide (n = "a")) as [->|Hne].
      * vm_compute in Hn. discriminate.
      * rewrite lookup_insert_ne in Hn by done. by rewrite lookup_empty in Hn.
  - destruct (Message_broadcast "T" ["lobby"] ["hi"] Demo.A Demo.lonely)
      as (_ & _ & H).
    apply H. apply unseated_rooms_of. vm_compute. reflexivity.
Defined.

(** C3 (as amended).  [Blast] panics on an empty list.  On [w :: rest] it
    drops [w] and sends one line: when the flat index holds no client
    twice, every client of the flat index is sent that line exactly once,
    whatever its room, and the other clients are left as they were.  The
    line is the one [Message] sends for the words [rest] to the members of
    the room of the sender (when one room, holding no client twice, stores
    the sender under its nickname and no other room has that nickname):
    [strings.TrimSpace] of the tag with the timestamp and the nickname,
    each word of [rest] after one space and CR LF, followed by CR LF; for
    fields it is the tag, each word after one space, and CR LF. *)
Theorem Blast_drops_first_word (ts : string) (w : string) (rest : list string)
  (cl : ptr) (s : State) :
  Blast ts [] cl s = None
  /\ exists s',
       Blast ts (w :: rest) cl s = Some s'
       /\ (one_key (Clients s) ->
           forall c, member (Clients s) c ->
                     sent s' c = sent s c ++ [format_line ts (Nick s cl) rest])
       /\ (forall c, ~ member (Clients s) c -> heap s' c = heap s c)
       /\ (forall ord R room,
             range_order s ord ->
             Rooms s !! R = Some room -> room !! Nick s cl = Some cl ->
             only_room s (Nick s cl) R -> one_key room ->
             forall c, member room c ->
                       sent (Message ts ord rest cl s).2 c
                       = sent s c ++ [format_line ts (Nick s cl) rest])
       /\ format_line ts (Nick s cl) rest
          = TrimSpace ("[" +:+ ts +:+ ":" +:+ Nick s cl +:+ "]"
                       +:+ String.concat EmptyString (map (String.append " ") rest)
                       +:+ CRLF) +:+ CRLF
       /\ (Forall Field rest ->
           format_line ts (Nick s cl) rest
           = "[" +:+ ts +:+ ":" +:+ Nick s cl +:+ "]"
             +:+ String.concat EmptyString (map (String.append " ") rest)
             +:+ CRLF).
Proof.
  split; [done|]. eexists. split; [reflexivity|].
  split; [|split; [|split; [|split]]].
  - intros Hinj c Hc. by apply fanout_member.
  - intros c Hc. by apply fanout_other.
  - intros ord R room Hord HR Hcl Honly Hinj c Hc.
    assert (Hf : findRoom ord cl s = inl R).
    { apply findRoom_only; [done | | done]. exists room. eauto. }
    rewrite (Message_fanout ts ord rest cl s R room Hf HR). simpl.
    by apply fanout_member.
  - apply format_line_spaced.
  - apply format_line_fields_spaced.
Qed.

Lemma Blast_drops_first_word_witness :
  (exists s', Blast "T" ["/blast"; "x"; "y"] Demo.A Demo.s3 = Some s'
              /\ sent s' Demo.A = ["[T:a] x y" +:+ CRLF]
              /\ sent s' Demo.B = ["[T:a] x y" +:+ CRLF])
  /\ sent (Message "T" [Demo.DefaultRoom; "gotham"] ["x"; "y"] Demo.A Demo.s3).2 Demo.A
     = ["[T:a] x y" +:+ CRLF].
Proof.
  destruct (Blast_drops_first_word "T" "/blast" ["x"; "y"] Demo.A Demo.s3)
    as (_ & s' & HB & Hin & _ & HM & _ & Hline).
  assert (Hl : format_line "T" (Nick Demo.s3 Demo.A) ["x"; "y"] = "[T:a] x y" +:+ CRLF).
  { rewrite Hline; [vm_compute; reflexivity | repeat constructor; done]. }
  split.
  - exists s'. split; [exact HB|].
    assert (Hinj : one_key (Clients Demo.s3)).
    { apply one_key_NoDup. apply (bool_decide_unpack _). vm_compute. exact I. }
    rewrite (Hin Hinj Demo.A) by (exists "a"; vm_compute; reflexivity).
    rewrite (Hin Hinj Demo.B) by (exists "b"; vm_compute; reflexivity).
    rewrite Hl. split; vm_compute; reflexivity.
  - rewrite (HM [Demo.DefaultRoom; "gotham"] Demo.DefaultRoom (<["a" := Demo.A]> ∅)).
    + rewrite Hl. vm_compute. reflexivity.
    + vm_compute. apply Permutation_swap.
    + vm_compute. reflexivity.
    + vm_compute. reflexivity.
    + apply only_room_rooms_of. vm_compute. reflexivity.
    + apply one_key_NoDup. apply (bool_decide_unpack _). vm_compute. exact I.
    + exists "a". vm_compute. reflexivity.
Defined.

(** C3, as stated, fails: on the same words [Blast] and [Message] do not
    send the same line, [Blast] leaves the first word out. *)
Lemma Blast_line_differs_from_Message :
  (fun s' => sent s' Demo.A) <$> Blast "T" ["x"; "y"] Demo.A Demo.s1
  = Some ["[T:a] y" +:+ CRLF]
  /\ sent (Message "T" [Demo.DefaultRoom] ["x"; "y"] Demo.A Demo.s1).2 Demo.A
     = ["[T:a] x y" +:+ CRLF]
  /\ Blast "T" [] Demo.A Demo.s1 = None.
Proof. split; [|split]; vm_compute; reflexivity. Qed.

(** ** Claims on the session driver *)

Section DriverFacts.

Implicit Types (s : State) (cl : ptr) (ord : list string).

Lemma Write_replies_once cl line s s1 :
  (forall c, sent s1 c = sent s c) -> replies_once cl s (Write cl line s1).
Proof.
  intros H. exists line. split.
  - rewrite sent_Write, decide_True by done. by rewrite H.
  - intros c Hc. rewrite sent_Write, decide_False by done. apply H.
Qed.

Lemma sent_JoinRoom ord rn cl s c : sent (JoinRoom ord rn cl s).2 c = sent s c.
Proof. unfold sent. by rewrite JoinRoom_heap. Qed.

Lemma sent_ChangeNick ord from to s c :
  sent (ChangeNick ord from to s).2 c = sent s c.
Proof.
  unfold ChangeNick. destruct (clientExists to s); [done|].
  destruct (Clients s !! from) as [cl|]; [|done].
  destruct (findRoom ord cl s); [|done].
  unfold sent, store; simpl. by case_decide; subst.
Qed.

Lemma sent_CloseClient cl s c : sent (CloseClient cl s) c = sent s c.
Proof. unfold CloseClient, sent, store; simpl. by case_decide; subst. Qed.

End DriverFacts.

(** The writes of the dispatch, by the first token. *)
Lemma dispatch_cases (ToLower : string -> string) (ts : string)
  (ord : list string) (inputs : list string) (cl : ptr) (s : State) :
  match inputs with
  | [] =>
      exists s', dispatch ToLower ts ord inputs cl s = Some s'
                 /\ replies_once cl s s'
  | c :: args =>
      if decide (c ∈ ["/help"; "/room"; "/nick"]) then
        exists s', dispatch ToLower ts ord inputs cl s = Some s'
                   /\ replies_once cl s s'
      else if decide (c = "/quit") then
        dispatch ToLower ts ord inputs cl s = Some (CloseClient cl s)
        /\ silent s (CloseClient cl s)
      else if decide (c = "/blast") then
        dispatch ToLower ts ord inputs cl s
        = Some (fanout (Clients s) (format_line ts (Nick s cl) args) s)
      else
        dispatch ToLower ts ord inputs cl s
        = Some (Message ts ord inputs cl s).2
  end.
Proof.
  destruct inputs as [|c args].
  - eexists. split; [done|]. by apply Write_replies_once.
  - case_decide as Hc.
    + rewrite !elem_of_cons in Hc.
      destruct Hc as [-> | [-> | [-> | Hc]]]; [| | | by apply elem_of_nil in Hc].
      * eexists. split; [done|]. by apply Write_replies_once.
      * destruct args as [|a args].
        -- eexists. split; [done|]. by apply Write_replies_once.
        -- eexists. split; [done|]. apply Write_replies_once.
           intros c. apply sent_JoinRoom.
      * destruct args as [|to args].
        -- eexists. split; [done|]. by apply Write_replies_once.
        -- change (dispatch ToLower ts ord ("/nick" :: to :: args) cl s)
             with (let (err, s1) := ChangeNick ord (Nick s cl) to s in
                   match err with
                   | Some e => Some (Write cl e s1)
                   | None => Some (Write cl ("Nick changed from [" +:+ Nick s cl
                                             +:+ "] to [" +:+ to +:+ "]" +:+ CRLF) s1)
                   end).
           pose proof (sent_ChangeNick ord (Nick s cl) to s) as Hs.
           destruct (ChangeNick ord (Nick s cl) to s) as [[e|] s1]; simpl in Hs;
             (eexists; split; [done|]; by apply Write_replies_once).
    + case_decide as Hq.
      * subst c. split; [done|]. intros c. apply sent_CloseClient.
      * case_decide as Hb; [by subst c|].
        unfold dispatch.
        rewrite !elem_of_cons in Hc.
        assert (Hh : String.eqb c "/help" = false).
        { apply String.eqb_neq. tauto. }
        assert (Hr : String.eqb c "/room" = false).
        { apply String.eqb_neq. tauto. }
        assert (Hn : String.eqb c "/nick" = false).
        { apply String.eqb_neq. tauto. }
        apply String.eqb_neq in Hq, Hb.
        by rewrite Hh, Hq, Hb, Hr, Hn.
Qed.

(** C8 (as amended).  One iteration of the driver on the line [cmd], by
    the first token of the line.  The empty line, [/help], [/room] and
    [/nick] write exactly one reply to the issuing client and nothing to
    the others.  [/quit] writes nothing to anyone.  [/blast] and a plain
    message line write no reply of their own: the state is the one
    [Blast], respectively [Message], returns.  In it the issuing client
    has been sent one copy of the line when the flat index, holding no
    client twice, holds it, respectively when a room that holds no client
    twice stores it under its nickname and no other room has an entry for
    that nickname; a client the flat index does not hold is sent nothing
    by its [/blast], and a plain line of a client whose nickname has no
    room entry writes nothing to anyone. *)
Theorem clientRun_line_replies (ToLower : string -> string) (ts : string)
  (ord : list string) (cmd : string) (cl : ptr) (s : State) :
  match Fields cmd with
  | [] =>
      exists s', clientRun_line ToLower ts ord cmd cl s = Some s'
                 /\ replies_once cl s s'
  | c :: args =>
      if decide (c ∈ ["/help"; "/room"; "/nick"]) then
        exists s', clientRun_line ToLower ts ord cmd cl s = Some s'
                   /\ replies_once cl s s'
      else if decide (c = "/quit") then
        clientRun_line ToLower ts ord cmd cl s = Some (CloseClient cl s)
        /\ silent s (CloseClient cl s)
      else if decide (c = "/blast") then
        clientRun_line ToLower ts ord cmd cl s
        = Some (fanout (Clients s) (format_line ts (Nick s cl) args) s)
        /\ (one_key (Clients s) -> member (Clients s) cl ->
            sent (fanout (Clients s) (format_line ts (Nick s cl) args) s) cl
            = sent s cl ++ [format_line ts (Nick s cl) args])
        /\ (~ member (Clients s) cl ->
            sent (fanout (Clients s) (format_line ts (Nick s cl) args) s) cl
            = sent s cl)
      else
        clientRun_line ToLower ts ord cmd cl s
        = Some (Message ts ord (c :: args) cl s).2
        /\ (forall R room,
              range_order s ord ->
              Rooms s !! R = Some room -> room !! Nick s cl = Some cl ->
              only_room s (Nick s cl) R -> one_key room ->
              sent (Message ts ord (c :: args) cl s).2 cl
              = sent s cl ++ [format_line ts (Nick s cl) (c :: args)])
        /\ (unseated s (Nick s cl) -> silent s (Message ts ord (c :: args) cl s).2)
  end.
Proof.
  unfold clientRun_line.
  pose proof (dispatch_cases ToLower ts ord (Fields cmd) cl s) as H.
  destruct (Fields cmd) as [|c args]; [done|].
  repeat case_decide; try done.
  - split; [done|]. split.
    + intros Hinj Hm. by apply fanout_member.
    + intros Hm. unfold sent. by rewrite fanout_other.
  - split; [done|]. split.
    + intros R room Hord HR Hcl Honly Hinj.
      assert (Hf : findRoom ord cl s = inl R).
      { apply findRoom_only; [done | | done]. exists room. eauto. }
      rewrite (Message_fanout ts ord (c :: args) cl s R room Hf HR). simpl.
      apply fanout_member; [done|]. by exists (Nick s cl).
    + intros Hun p.
      by rewrite (Message_not_found ts ord (c :: args) cl s _
                    (findRoom_unseated ord cl s Hun)).
Qed.

Lemma clientRun_line_replies_witness :
  (exists s',
     clientRun_line Demo.ToLower "T" [] ("/blast x y" +:+ CRLF) Demo.A Demo.s3 = Some s'
     /\ sent s' Demo.A = ["[T:a] x y" +:+ CRLF])
  /\ (exists s',
        clientRun_line Demo.ToLower "T" [Demo.DefaultRoom; "gotham"] ("x y" +:+ CRLF)
          Demo.A Demo.s3 = Some s'
        /\ sent s' Demo.A = ["[T:a] x y" +:+ CRLF]).
Proof.
  split.
  - pose proof (clientRun_line_replies Demo.ToLower "T" [] ("/blast x y" +:+ CRLF)
                  Demo.A Demo.s3) as H.
    assert (E : Fields ("/blast x y" +:+ CRLF) = ["/blast"; "x"; "y"])
      by (vm_compute; reflexivity).
    rewrite E in H.
    rewrite decide_False in H by (vm_compute; intros F; inversion F as [|? ? ? F1];
      inversion F1 as [|? ? ? F2]; inversion F2 as [|? ? ? F3]; inversion F3).
    rewrite decide_False, decide_True in H by done.
    destruct H as (Hrun & Hin & _).
    eexists. split; [exact Hrun|]. rewrite Hin.
    + vm_compute. reflexivity.
    + apply one_key_NoDup. apply (bool_decide_unpack _). vm_compute. exact I.
    + exists "a". vm_compute. reflexivity.
  - pose proof (clientRun_line_replies Demo.ToLower "T" [Demo.DefaultRoom; "gotham"]
                  ("x y" +:+ CRLF) Demo.A Demo.s3) as H.
    assert (E : Fields ("x y" +:+ CRLF) = ["x"; "y"]) by (vm_compute; reflexivity).
    rewrite E in H.
    rewrite decide_False in H by (vm_compute; intros F; inversion F as [|? ? ? F1];
      inversion F1 as [|? ? ? F2]; inversion F2 as [|? ? ? F3]; inversion F3).
    rewrite !decide_False in H by done.
    destruct H as (Hrun & Hin & _).
    eexists. split; [exact Hrun|].
    rewrite (Hin Demo.DefaultRoom (<["a" := Demo.A]> ∅)).
    + vm_compute. reflexivity.
    + vm_compute. apply Permutation_swap.
    + vm_compute. reflexivity.
    + vm_compute. reflexivity.
    + apply only_room_rooms_of. vm_compute. reflexivity.
    + apply one_key_NoDup. apply (bool_decide_unpack _). vm_compute. exact I.
Defined.

(** C8, as stated, fails: the line [/quit] is one token, and the iteration
    of the driver that reads it writes nothing to the issuing client, it
    only closes its connection. *)
Lemma quit_gets_no_reply :
  Fields ("/quit" +:+ CRLF) = ["/quit"]
  /\ clientRun_line Demo.ToLower "T" [Demo.DefaultRoom] ("/quit" +:+ CRLF)
       Demo.A Demo.s1
     = Some (CloseClient Demo.A Demo.s1)
  /\ sent (CloseClient Demo.A Demo.s1) Demo.A = sent Demo.s1 Demo.A
  /\ closed (Conn (heap (CloseClient Demo.A Demo.s1) Demo.A)) = true.
Proof. repeat split; vm_compute; reflexivity. Qed.

(** [/quit] in general. *)
Corollary clientRun_line_quit (ToLower : string -> string) (ts : string)
  (ord : list string) (cmd : string) (args : list string) (cl : ptr) (s : State) :
  Fields cmd = "/quit" :: args ->
  clientRun_line ToLower ts ord cmd cl s = Some (CloseClient cl s)
  /\ silent s (CloseClient cl s).
Proof.
  intros E. unfold clientRun_line. rewrite E.
  split; [done|]. intros c. apply sent_CloseClient.
Qed.

(** X15.  A plain line typed by a client that sits in one room: every member of
    the room is sent the tag and the tokens of the line joined with single
    spaces.  The tokens of [strings.Fields] are fields, so [TrimSpace] has
    nothing to trim but the CR LF. *)
Corollary clientRun_line_plain (ToLower : string -> string) (ts : string)
  (ord : list string) (cmd : string) (cl : ptr) (s : State) (c : string)
  (args : list string) (R : string) (room : gmap string ptr) :
  Fields cmd = c :: args ->
  c ∉ ["/help"; "/quit"; "/blast"; "/room"; "/nick"] ->
  range_order s ord ->
  Rooms s !! R = Some room -> room !! Nick s cl = Some cl ->
  only_room s (Nick s cl) R -> one_key room ->
  exists s', clientRun_line ToLower ts ord cmd cl s = Some s'
             /\ forall m, member room m ->
                          sent s' m
                          = sent s m ++ ["[" +:+ ts +:+ ":" +:+ Nick s cl +:+ "] "
                                         +:+ String.concat " " (Fields cmd) +:+ CRLF].
Proof.
  intros E Hc Hord HR Hcl Honly Hinj.
  pose proof (Fields_fields cmd) as Hf.
  pose proof (dispatch_cases ToLower ts ord (Fields cmd) cl s) as H.
  unfold clientRun_line. rewrite E in *.
  rewrite !elem_of_cons, elem_of_nil in Hc.
  rewrite decide_False in H by (rewrite !elem_of_cons, elem_of_nil; tauto).
  rewrite decide_False in H by tauto.
  rewrite decide_False in H by tauto.
  rewrite H. eexists. split; [done|]. intros m Hm.
  assert (Hfind : findRoom ord cl s = inl R).
  { apply findRoom_only; [done | | done]. exists room. eauto. }
  rewrite (Message_fanout ts ord (c :: args) cl s R room Hfind HR). simpl.
  rewrite fanout_member by done.
  by rewrite format_line_joined.
Qed.

(** ** The registry invariant *)

Section Invariant.

Implicit Types (s : State) (cl c : ptr) (ord : list string) (n r : string).

Lemma seated_in_room s n c r : seated s n c r -> in_room s n r.
Proof. intros (room & ? & ?). exists room. eauto. Qed.

Lemma in_room_seated s n r : in_room s n r -> exists c, seated s n c r.
Proof. intros (room & ? & [c ?]). exists c, room. eauto. Qed.

(** What the hypotheses of the claims need follows from the invariant. *)
Lemma WellFormed_at_most_one s n : WellFormed s -> at_most_one_room s n.
Proof.
  intros [[Hidx Hone] _] r1 r2 H1 H2.
  apply in_room_seated in H1 as [c1 H1], H2 as [c2 H2].
  assert (E1 : Clients s !! n = Some c1) by (apply Hidx; eauto).
  assert (E2 : Clients s !! n = Some c2) by (apply Hidx; eauto).
  assert (c1 = c2) by congruence. subst c2. by apply (Hone c1 n r1 n r2).
Qed.

Lemma WellFormed_only_room s n c r : WellFormed s -> seated s n c r -> only_room s n r.
Proof.
  intros Hwf Hs r' Hr'. apply (WellFormed_at_most_one s n Hwf); [done|].
  by apply seated_in_room in Hs.
Qed.

Lemma WellFormed_unseated s n : WellFormed s -> Clients s !! n = None -> unseated s n.
Proof.
  intros [[Hidx _] _] Hn r Hr. apply in_room_seated in Hr as [c Hc].
  assert (Clients s !! n = Some c) by (apply Hidx; eauto). congruence.
Qed.

Lemma WellFormed_seated_Nick s n c r : WellFormed s -> seated s n c r -> Nick s c = n.
Proof. intros [[Hidx _] Hkey] Hs. apply Hkey, Hidx. eauto. Qed.

Lemma WellFormed_own_key s c : WellFormed s -> own_key s c.
Proof.
  intros Hwf r room n Hr Hn. symmetry.
  apply (WellFormed_seated_Nick s n c r Hwf). by exists room.
Qed.

Lemma WellFormed_one_key s r room :
  WellFormed s -> Rooms s !! r = Some room -> one_key room.
Proof.
  intros Hwf Hr n1 n2 c H1 H2.
  rewrite <- (WellFormed_seated_Nick s n1 c r Hwf) by (by exists room).
  by rewrite <- (WellFormed_seated_Nick s n2 c r Hwf) by (by exists room).
Qed.

Lemma WellFormed_index_one_key s : WellFormed s -> one_key (Clients s).
Proof.
  intros [_ Hkey] n1 n2 c H1 H2. by rewrite <- (Hkey n1 c H1), <- (Hkey n2 c H2).
Qed.

(** The invariant only reads the maps and the nicknames. *)
Lemma WellFormed_ext s s' :
  Rooms s' = Rooms s -> Clients s' = Clients s ->
  (forall c, Nick s' c = Nick s c) ->
  WellFormed s -> WellFormed s'.
Proof.
  intros HR HC HN [[Hidx Hone] Hkey].
  unfold WellFormed, RegistryInv, index_matches_rooms, one_room_per_client,
    keyed_by_nick, seated in *.
  rewrite HR, HC. split; [split; [done|done]|].
  intros n c H. rewrite HN. by apply Hkey.
Qed.

Lemma NewServer_WellFormed h : WellFormed (NewServer h).
Proof.
  split; [split|].
  - intros n c. split.
    + intros (r & room & Hr & _). simpl in Hr. by rewrite lookup_empty in Hr.
    + simpl. by rewrite lookup_empty.
  - intros c n1 r1 n2 r2 (room & Hr & _). simpl in Hr. by rewrite lookup_empty in Hr.
  - intros n c. simpl. by rewrite lookup_empty.
Qed.

Lemma Message_WellFormed ts ord ws cl s :
  WellFormed s -> WellFormed (Message ts ord ws cl s).2.
Proof.
  intros Hwf. unfold Message. destruct (findRoom ord cl s) as [r|e]; [|done].
  destruct (Rooms s !! r) as [room|]; [|done]. simpl.
  destruct (fanout_maps room (format_line ts (Nick s cl) ws) s) as [HR HC].
  apply (WellFormed_ext s); [done | done | | done].
  intros c. apply fanout_Nick.
Qed.

Lemma Blast_WellFormed ts ws cl s s' :
  WellFormed s -> Blast ts ws cl s = Some s' -> WellFormed s'.
Proof.
  intros Hwf. unfold Blast. destruct ws as [|w rest]; [done|].
  intros [= <-].
  destruct (fanout_maps (Clients s) (format_line ts (Nick s cl) rest) s) as [HR HC].
  apply (WellFormed_ext s); [done | done | | done].
  intros c. apply fanout_Nick.
Qed.

(** The entries of the rooms after [tryDeleteFromRoom]. *)
Lemma tryDelete_seated ord cl s n c r :
  range_order s ord -> at_most_one_room s (Nick s cl) ->
  (exists room, Rooms (tryDeleteFromRoom ord cl s) !! r = Some room
                /\ room !! n = Some c)
  <-> n <> Nick s cl /\ seated s n c r.
Proof.
  intros Hord Huniq. split.
  - intros (room & Hr & Hn). split.
    + intros ->. by rewrite (tryDelete_unseats _ _ _ Hord Huniq _ _ Hr) in Hn.
    + destruct (tryDelete_sub _ _ _ _ _ Hr) as (room0 & Hr0 & Hsub).
      exists room0. eauto.
  - intros [Hne (room & Hr & Hn)].
    destruct (findRoom ord cl s) as [r0|e] eqn:E.
    + rewrite (tryDelete_Rooms_found _ _ _ _ E).
      destruct (decide (r = r0)) as [->|Hr0].
      * rewrite lookup_alter_eq, Hr. simpl. eexists. split; [done|].
        by rewrite lookup_delete_ne.
      * rewrite lookup_alter_ne by done. eauto.
    + rewrite (tryDelete_Rooms_none _ _ _ _ E). eauto.
Qed.

Lemma JoinRoom_seated_iff ord rn cl s n c r :
  range_order s ord -> at_most_one_room s (Nick s cl) ->
  seated (JoinRoom ord rn cl s).2 n c r
  <-> (n = Nick s cl /\ c = cl /\ r = rn) \/ (n <> Nick s cl /\ seated s n c r).
Proof.
  intros Hord Huniq. unfold seated at 1. rewrite JoinRoom_Rooms.
  rewrite <- (tryDelete_seated ord cl s n c r Hord Huniq).
  destruct (decide (r = rn)) as [->|Hr].
  - rewrite lookup_insert_eq. split.
    + intros (room & [= <-] & Hn).
      destruct (decide (n = Nick s cl)) as [->|Hne].
      * rewrite lookup_insert_eq in Hn. left. by injection Hn as <-.
      * rewrite lookup_insert_ne in Hn by done. right.
        destruct (Rooms (tryDeleteFromRoom ord cl s) !! rn) as [room1|]; [|done].
        eauto.
    + intros [(-> & -> & _) | (room1 & Hr1 & Hn)].
      * eexists. split; [done|]. apply lookup_insert_eq.
      * eexists. split; [done|]. rewrite Hr1. simpl.
        destruct (decide (n = Nick s cl)) as [->|Hne]; [|by rewrite lookup_insert_ne].
        by rewrite (tryDelete_unseats _ _ _ Hord Huniq _ _ Hr1) in Hn.
  - rewrite lookup_insert_ne by done. split; [by right|].
    intros [(_ & _ & ->) | H]; done.
Qed.

(** [JoinRoom] keeps the invariant, for a client that is new (its
    nickname is not in the flat index) or registered under its nickname. *)
Lemma JoinRoom_WellFormed ord rn cl s :
  range_order s ord ->
  Clients s !! Nick s cl = None \/ Clients s !! Nick s cl = Some cl ->
  WellFormed s -> WellFormed (JoinRoom ord rn cl s).2.
Proof.
  intros Hord Hcl Hwf.
  pose proof (WellFormed_at_most_one s (Nick s cl) Hwf) as Huniq.
  destruct Hwf as [[Hidx Hone] Hkey].
  assert (HC : forall n c, Clients (JoinRoom ord rn cl s).2 !! n = Some c
                           <-> (n = Nick s cl /\ c = cl)
                               \/ (n <> Nick s cl /\ Clients s !! n = Some c)).
  { intros n c. rewrite JoinRoom_Clients.
    destruct (decide (n = Nick s cl)) as [->|Hne].
    - destruct Hcl as [E|E]; rewrite E; rewrite ?lookup_insert_eq, ?E;
        split; [intros [= <-]; eauto | intros [[_ ->]|[? _]]; done
               | intros [= <-]; eauto | intros [[_ ->]|[? _]]; done].
    - destruct (Clients s !! Nick s cl); rewrite ?lookup_insert_ne by done;
        (split; [eauto | intros [[? _]|[_ ?]]; done]). }
  split; [split|].
  - intros n c. rewrite HC. split.
    + intros [r Hr]. apply JoinRoom_seated_iff in Hr; [|done|done].
      destruct Hr as [(-> & -> & _) | [Hne Hr]]; [by left | right].
      split; [done|]. apply Hidx. eauto.
    + intros [[-> ->] | [Hne Hc]].
      * exists rn. apply JoinRoom_seated_iff; [done | done | by left].
      * apply Hidx in Hc as [r Hr]. exists r.
        apply JoinRoom_seated_iff; [done | done | by right].
  - intros c n1 r1 n2 r2 H1 H2.
    apply JoinRoom_seated_iff in H1, H2; try done.
    destruct H1 as [(-> & -> & ->) | [Hne1 H1]], H2 as [(-> & E & ->) | [Hne2 H2]].
    + done.
    + destruct Hne2. symmetry. apply Hkey, Hidx. eauto.
    + subst c. destruct Hne1. symmetry. apply Hkey, Hidx. eauto.
    + by apply (Hone c n1 r1 n2 r2).
  - intros n c Hc. apply HC in Hc.
    unfold Nick. rewrite JoinRoom_heap. fold (Nick s c).
    destruct Hc as [[-> ->] | [_ Hc]]; [done | by apply Hkey].
Qed.

(** [ChangeNick] keeps the invariant. *)
Lemma ChangeNick_WellFormed ord from to s :
  range_order s ord -> WellFormed s -> WellFormed (ChangeNick ord from to s).2.
Proof.
  intros Hord Hwf.
  destruct (Clients s !! to) as [c0|] eqn:Hto.
  { rewrite (ChangeNick_taken ord from to s); [done | eauto]. }
  destruct (Clients s !! from) as [cl|] eqn:Hfrom.
  2:{ by rewrite (ChangeNick_unknown ord from to s). }
  destruct (findRoom ord cl s) as [r|e] eqn:Hf.
  2:{ by rewrite (ChangeNick_not_found ord from to s cl e). }
  rewrite (ChangeNick_renames ord from to s cl r) by done. simpl.
  assert (Hne : from <> to) by congruence.
  assert (Hnick : Nick s cl = from) by (by apply Hwf).
  pose proof (WellFormed_unseated s to Hwf Hto) as Hunto.
  pose proof (findRoom_in_room _ _ _ _ Hf) as Hin. rewrite Hnick in Hin.
  assert (Hseat : seated s from cl r).
  { apply in_room_seated in Hin as [c Hc].
    assert (Clients s !! from = Some c) by (apply Hwf; eauto).
    by replace cl with c by congruence. }
  pose proof (WellFormed_only_room s from cl r Hwf Hseat) as Honly.
  destruct Hseat as (room & Hroom & Hcl).
  assert (HR : alter (insert to cl) r (alter (delete from) r (Rooms s))
               = <[r := <[to := cl]> (delete from room)]> (Rooms s)).
  { apply map_eq. intros k. destruct (decide (k = r)) as [->|Hk].
    - by rewrite !lookup_alter_eq, lookup_insert_eq, Hroom.
    - by rewrite !lookup_alter_ne, lookup_insert_ne. }
  rewrite HR. clear HR.
  set (s' := mkState _ _ _).
  assert (HS : forall n c r', seated s' n c r'
                 <-> (n = to /\ c = cl /\ r' = r)
                     \/ (n <> to /\ n <> from /\ seated s n c r')).
  { intros n c r'. unfold seated; simpl.
    destruct (decide (r' = r)) as [->|Hr].
    - rewrite lookup_insert_eq. split.
      + intros (room' & [= <-] & Hn).
        destruct (decide (n = to)) as [->|Hnt].
        * rewrite lookup_insert_eq in Hn. left. by injection Hn as <-.
        * rewrite lookup_insert_ne in Hn by done.
          apply lookup_delete_Some in Hn as [Hnf Hn]. right.
          split; [done|]. split; [done|]. eauto.
      + intros [(-> & -> & _) | (Hnt & Hnf & room' & Hr' & Hn)].
        * eexists. split; [done|]. apply lookup_insert_eq.
        * eexists. split; [done|].
          rewrite lookup_insert_ne, lookup_delete_ne by done. congruence.
    - rewrite lookup_insert_ne by done. split.
      + intros (room' & Hr' & Hn). right.
        split; [|split; [|eauto]].
        * intros ->. apply (Hunto r'). exists room'. eauto.
        * intros ->. apply Hr, Honly. exists room'. eauto.
      + intros [(_ & _ & ->) | (_ & _ & H)]; done. }
  assert (HC : forall n c, Clients s' !! n = Some c
                 <-> (n = to /\ c = cl)
                     \/ (n <> to /\ n <> from /\ Clients s !! n = Some c)).
  { intros n c. simpl. destruct (decide (n = to)) as [->|Hnt].
    - rewrite lookup_insert_eq. split; [intros [= <-]; eauto|].
      intros [[_ ->] | [? _]]; done.
    - rewrite lookup_insert_ne by done. rewrite lookup_delete_Some.
      split; [intros [? ?]; right; eauto|].
      intros [[? _] | (_ & ? & ?)]; done. }
  destruct Hwf as [[Hidx Hone] Hkey].
  split; [split|].
  - intros n c. rewrite HC. split.
    + intros [r' Hr']. apply HS in Hr' as [(-> & -> & _) | (? & ? & Hr')];
        [by left | right]. split; [done|]. split; [done|]. apply Hidx. eauto.
    + intros [[-> ->] | (? & ? & Hc)].
      * exists r. apply HS. by left.
      * apply Hidx in Hc as [r' Hr']. exists r'. apply HS. by right.
  - intros c n1 r1 n2 r2 H1 H2. apply HS in H1, H2.
    destruct H1 as [(-> & -> & ->) | (? & Hf1 & H1)],
             H2 as [(-> & E & ->) | (? & Hf2 & H2)].
    + done.
    + destruct Hf2. rewrite <- Hnick. symmetry. apply Hkey, Hidx. eauto.
    + subst c. destruct Hf1. rewrite <- Hnick. symmetry. apply Hkey, Hidx. eauto.
    + by apply (Hone c n1 r1 n2 r2).
  - intros n c Hc. apply HC in Hc. unfold Nick, s', store; simpl.
    destruct Hc as [[-> ->] | (? & Hnf & Hc)].
    + by rewrite decide_True.
    + case_decide as Hcl'; [|by apply Hkey].
      subst c. destruct Hnf. rewrite <- Hnick. symmetry. by apply Hkey.
Qed.

End Invariant.

(** C2, at the failing input.  The state in which [A] has joined the
    default room satisfies the invariant; after [CloseClient] on [A] the
    room still stores [A] under its nickname and the flat index has no
    entry for it: the invariant is broken. *)
Theorem CloseClient_breaks_invariant :
  RegistryInv Demo.s1
  /\ seated (CloseClient Demo.A Demo.s1) "a" Demo.A Demo.DefaultRoom
  /\ Clients (CloseClient Demo.A Demo.s1) !! "a" = None
  /\ ~ RegistryInv (CloseClient Demo.A Demo.s1).
Proof.
  assert (Hs : seated (CloseClient Demo.A Demo.s1) "a" Demo.A Demo.DefaultRoom).
  { eexists. split; vm_compute; reflexivity. }
  assert (Hc : Clients (CloseClient Demo.A Demo.s1) !! "a" = None).
  { vm_compute. reflexivity. }
  split; [|split; [done|split; [done|]]].
  - apply (JoinRoom_WellFormed [] Demo.DefaultRoom Demo.A (NewServer Demo.clients)).
    + vm_compute. reflexivity.
    + left. vm_compute. reflexivity.
    + apply NewServer_WellFormed.
  - intros [Hidx _].
    assert (Clients (CloseClient Demo.A Demo.s1) !! "a" = Some Demo.A)
      by (apply Hidx; eauto).
    congruence.
Qed.

(** What the entry left behind does later.  [A] has quit from room [r2];
    [B], in the default room, takes the nickname [A] had, which the flat
    index allows.  Two rooms now have an entry for the nickname of [B], and
    the room [findRoom] returns for [B] depends on the order of the visit:
    with [r2] first, the message of [B] goes to [A] and not to [B]. *)
Example stale_entry_misroutes :
  WellFormed Demo.q2
  /\ fst (ChangeNick ["r2"; Demo.DefaultRoom] "b" "a" Demo.q3) = None
  /\ range_order Demo.q4 ["r2"; Demo.DefaultRoom]
  /\ range_order Demo.q4 [Demo.DefaultRoom; "r2"]
  /\ findRoom [Demo.DefaultRoom; "r2"] Demo.B Demo.q4 = inl Demo.DefaultRoom
  /\ findRoom ["r2"; Demo.DefaultRoom] Demo.B Demo.q4 = inl "r2"
  /\ sent (Message "T" ["r2"; Demo.DefaultRoom] ["hi"] Demo.B Demo.q4).2 Demo.B = []
  /\ sent (Message "T" ["r2"; Demo.DefaultRoom] ["hi"] Demo.B Demo.q4).2 Demo.A
     = ["[T:a] hi" +:+ CRLF].
Proof.
  split.
  { apply (JoinRoom_WellFormed ["r2"] Demo.DefaultRoom Demo.B Demo.q1).
    - vm_compute. reflexivity.
    - left. vm_compute. reflexivity.
    - apply (JoinRoom_WellFormed [] "r2" Demo.A (NewServer Demo.clients)).
      + vm_compute. reflexivity.
      + left. vm_compute. reflexivity.
      + apply NewServer_WellFormed. }
  repeat split; vm_compute; try reflexivity.
  apply Permutation_swap.
Qed.

(** ** Sequences of operations: what every state of a server satisfies *)

Section StepFacts.

Implicit Types (s : State) (cl c p : ptr) (ord : list string).

Lemma closed_Write c line s p :
  closed (Conn (heap (Write c line s) p)) = closed (Conn (heap s p)).
Proof. unfold Write, store; simpl. by case_decide; subst. Qed.

Lemma deliver_closed cs line s p :
  closed (Conn (heap (deliver cs line s) p)) = closed (Conn (heap s p)).
Proof.
  revert s. induction cs as [|c cs IH]; intros s; [done|].
  simpl. by rewrite IH, closed_Write.
Qed.

Lemma grows_refl (l : list string) : grows l l.
Proof. exists []. by rewrite app_nil_r. Qed.

Lemma grows_trans (l1 l2 l3 : list string) : grows l1 l2 -> grows l2 l3 -> grows l1 l3.
Proof. intros [m1 ->] [m2 ->]. exists (m1 ++ m2). by rewrite app_assoc. Qed.

Lemma deliver_grows cs line s p : grows (sent s p) (sent (deliver cs line s) p).
Proof.
  revert s. induction cs as [|c cs IH]; intros s; [apply grows_refl|].
  simpl. eapply grows_trans; [|apply IH].
  rewrite sent_Write. case_decide; [by exists [line] | apply grows_refl].
Qed.

(** The heap after [ChangeNick]. *)
Lemma ChangeNick_heap ord from to s c :
  Conn (heap (ChangeNick ord from to s).2 c) = Conn (heap s c)
  /\ (Clients s !! from <> Some c -> heap (ChangeNick ord from to s).2 c = heap s c).
Proof.
  unfold ChangeNick. destruct (clientExists to s); [done|].
  destruct (Clients s !! from) as [cl|] eqn:E; [|done].
  destruct (findRoom ord cl s); [|done].
  unfold store; simpl. case_decide; [subst|done].
  split; [done|]. intros H. by destruct H.
Qed.

(** Every operation keeps the flat index keyed by the current
    nicknames. *)
Lemma op_step_keyed s s' : op_step s s' -> keyed_by_nick s -> keyed_by_nick s'.
Proof.
  intros Hstep Hkey. destruct Hstep as [ord rn cl s _|ord from to s _|ts ord ws cl s _
                                       |ts ws cl s s' HB|cl s].
  - intros n c. rewrite JoinRoom_Clients. unfold Nick. rewrite JoinRoom_heap.
    fold (Nick s c) (Nick s cl).
    destruct (Clients s !! Nick s cl) eqn:E; [apply Hkey|].
    destruct (decide (n = Nick s cl)) as [->|Hne].
    + rewrite lookup_insert_eq. by intros [= <-].
    + rewrite lookup_insert_ne by done. apply Hkey.
  - destruct (Clients s !! to) as [c0|] eqn:Hto.
    { rewrite (ChangeNick_taken ord from to s); [done | eauto]. }
    destruct (Clients s !! from) as [cl|] eqn:Hfrom.
    2:{ by rewrite (ChangeNick_unknown ord from to s). }
    destruct (findRoom ord cl s) as [r|e] eqn:Hf.
    2:{ by rewrite (ChangeNick_not_found ord from to s cl e). }
    rewrite (ChangeNick_renames ord from to s cl r) by done.
    intros n c. unfold Nick, store; simpl.
    destruct (decide (n = to)) as [->|Hnt].
    + rewrite lookup_insert_eq. intros [= <-]. by rewrite decide_True.
    + rewrite lookup_insert_ne by done. rewrite lookup_delete_Some.
      intros [Hnf Hc]. case_decide as Hcl; [|by apply Hkey].
      subst c. destruct Hnf. rewrite <- (Hkey _ _ Hc). symmetry. by apply Hkey.
  - unfold Message. destruct (findRoom ord cl s) as [r|e]; [|done].
    destruct (Rooms s !! r) as [room|]; [|done]. simpl.
    intros n c. destruct (fanout_maps room (format_line ts (Nick s cl) ws) s) as [_ ->].
    rewrite fanout_Nick. apply Hkey.
  - unfold Blast in HB. destruct ws as [|w rest]; [done|]. injection HB as <-.
    intros n c.
    destruct (fanout_maps (Clients s) (format_line ts (Nick s cl) rest) s) as [_ ->].
    rewrite fanout_Nick. apply Hkey.
  - intros n c. unfold CloseClient, Nick, store; simpl.
    rewrite lookup_delete_Some. intros [_ Hc].
    case_decide; [subst|]; by apply Hkey.
Qed.

Lemma reachable_keyed h s : reachable h s -> keyed_by_nick s.
Proof.
  induction 1 as [|s s' _ IH Hstep].
  - intros n c. simpl. by rewrite lookup_empty.
  - by apply (op_step_keyed s s').
Qed.

Lemma seat_step_WellFormed s s' : seat_step s s' -> WellFormed s -> WellFormed s'.
Proof.
  intros Hstep Hwf. destruct Hstep as [ord rn cl s Hord Hcl|ord from to s Hord
                                      |ts ord ws cl s _|ts ws cl s s' HB].
  - by apply JoinRoom_WellFormed.
  - by apply ChangeNick_WellFormed.
  - by apply Message_WellFormed.
  - by apply (Blast_WellFormed ts ws cl s).
Qed.

Lemma seat_reachable_inv h s : seat_reachable h s -> WellFormed s.
Proof.
  induction 1 as [|s s' _ IH Hstep]; [apply NewServer_WellFormed|].
  by apply (seat_step_WellFormed s s').
Qed.

(** Rooms after [tryDeleteFromRoom] and [JoinRoom]: the same names, and
    the target. *)
Lemma tryDelete_room_names ord cl s r :
  is_Some (Rooms (tryDeleteFromRoom ord cl s) !! r) <-> is_Some (Rooms s !! r).
Proof.
  unfold tryDeleteFromRoom. destruct (findRoom ord cl s) as [r0|e]; [|done].
  simpl. destruct (decide (r = r0)) as [->|Hne].
  - by rewrite lookup_alter_eq, fmap_is_Some.
  - by rewrite lookup_alter_ne.
Qed.

Lemma JoinRoom_room_names ord rn cl s r :
  is_Some (Rooms (JoinRoom ord rn cl s).2 !! r) <-> r = rn \/ is_Some (Rooms s !! r).
Proof.
  rewrite JoinRoom_Rooms, lookup_insert_is_Some, tryDelete_room_names.
  split; [intros [->|[_ ?]]; eauto|].
  intros [->|H]; [by left|]. destruct (decide (rn = r)); [by left | by right].
Qed.

Lemma ChangeNick_room_names ord from to s r :
  is_Some (Rooms (ChangeNick ord from to s).2 !! r) <-> is_Some (Rooms s !! r).
Proof.
  unfold ChangeNick. destruct (clientExists to s); [done|].
  destruct (Clients s !! from) as [cl|]; [|done].
  destruct (findRoom ord cl s) as [r0|]; [|done]. simpl.
  destruct (decide (r = r0)) as [->|Hne].
  - by rewrite !lookup_alter_eq, !fmap_is_Some.
  - by rewrite !lookup_alter_ne.
Qed.

End StepFacts.

(** The example states are states of a server. *)
Lemma Demo_q4_reachable : reachable Demo.clients Demo.q4.
Proof.
  apply (reach_step _ Demo.q3); [apply (reach_step _ Demo.q2);
    [apply (reach_step _ Demo.q1); [apply (reach_step _ (NewServer Demo.clients));
      [apply reach_new|] |] |] |].
  - apply (step_JoinRoom [] "r2" Demo.A). vm_compute. reflexivity.
  - apply (step_JoinRoom ["r2"] Demo.DefaultRoom Demo.B). vm_compute. reflexivity.
  - apply step_CloseClient.
  - apply (step_ChangeNick ["r2"; Demo.DefaultRoom] "b" "a"). order_ok.
Defined.

Lemma Demo_s3_seat_reachable : seat_reachable Demo.clients Demo.s3.
Proof.
  apply (seat_next _ Demo.s2); [apply (seat_next _ Demo.s1);
    [apply (seat_next _ (NewServer Demo.clients)); [apply seat_new|] |] |].
  - apply (seat_JoinRoom [] Demo.DefaultRoom Demo.A); [|left]; vm_compute; reflexivity.
  - apply (seat_JoinRoom [Demo.DefaultRoom] Demo.DefaultRoom Demo.B); [|left];
      vm_compute; reflexivity.
  - apply (seat_JoinRoom [Demo.DefaultRoom] "gotham" Demo.B); [|right];
      vm_compute; reflexivity.
Defined.

(** X1.  In every state a server reaches from [NewServer] by any calls of
    [JoinRoom], [ChangeNick], [Message], [Blast] and [CloseClient], the
    flat index holds every client under its current nickname; so it holds
    no client twice, and two different clients of the flat index never
    have the same nickname. *)
Theorem nicknames_stay_unique (h : ptr -> Client) (s : State) :
  reachable h s ->
  keyed_by_nick s
  /\ one_key (Clients s)
  /\ forall n1 c1 n2 c2,
       Clients s !! n1 = Some c1 -> Clients s !! n2 = Some c2 ->
       c1 <> c2 -> Nick s c1 <> Nick s c2.
Proof.
  intros Hr. pose proof (reachable_keyed h s Hr) as Hkey.
  split; [done|]. split.
  - intros n1 n2 c H1 H2. by rewrite <- (Hkey n1 c H1), <- (Hkey n2 c H2).
  - intros n1 c1 n2 c2 H1 H2 Hne E.
    rewrite (Hkey n1 c1 H1), (Hkey n2 c2 H2) in E. subst n2. congruence.
Qed.

Lemma nicknames_stay_unique_witness :
  keyed_by_nick Demo.q4 /\ one_key (Clients Demo.q4).
Proof.
  destruct (nicknames_stay_unique Demo.clients Demo.q4 Demo_q4_reachable)
    as (H1 & H2 & _).
  split; [exact H1 | exact H2].
Defined.

(** X2.  As long as no client quits and [JoinRoom] is called on clients
    that are new or registered under their nickname, the registry
    invariant holds: every client of the flat index sits, under its
    nickname, in exactly one room, and no room has that nickname but this
    one. *)
Theorem registered_clients_sit_in_one_room (h : ptr -> Client) (s : State) :
  seat_reachable h s ->
  WellFormed s
  /\ forall n c, Clients s !! n = Some c ->
                 Nick s c = n /\ exists r, seated s n c r /\ only_room s n r.
Proof.
  intros Hr. pose proof (seat_reachable_inv h s Hr) as Hwf.
  split; [done|]. intros n c Hc. split; [by apply Hwf|].
  destruct (proj2 (proj1 (proj1 Hwf) n c) Hc) as [r Hs]. exists r.
  split; [done|]. by apply (WellFormed_only_room s n c r).
Qed.

Lemma registered_clients_sit_in_one_room_witness :
  WellFormed Demo.s3
  /\ exists r, seated Demo.s3 "b" Demo.B r /\ only_room Demo.s3 "b" r.
Proof.
  destruct (registered_clients_sit_in_one_room Demo.clients Demo.s3
              Demo_s3_seat_reachable) as [H1 H2].
  split; [exact H1|]. apply (H2 "b" Demo.B). vm_compute. reflexivity.
Defined.

(** X3.  No operation removes a room: a room name that is in [Rooms]
    before a call is in [Rooms] after it (a room the last member left
    stays, empty). *)
Theorem rooms_are_never_removed (s s' : State) (r : string) :
  op_step s s' -> is_Some (Rooms s !! r) -> is_Some (Rooms s' !! r).
Proof.
  intros Hstep Hr. destruct Hstep as [ord rn cl s _|ord from to s _|ts ord ws cl s _
                                     |ts ws cl s s' HB|cl s].
  - apply JoinRoom_room_names. by right.
  - by apply ChangeNick_room_names.
  - unfold Message. destruct (findRoom ord cl s) as [r0|e]; [|done].
    destruct (Rooms s !! r0) as [room|]; [|done]. simpl.
    by destruct (fanout_maps room (format_line ts (Nick s cl) ws) s) as [-> _].
  - unfold Blast in HB. destruct ws as [|w rest]; [done|]. injection HB as <-.
    by destruct (fanout_maps (Clients s) (format_line ts (Nick s cl) rest) s)
      as [-> _].
  - done.
Qed.

Lemma rooms_are_never_removed_witness :
  is_Some (Rooms Demo.s3 !! Demo.DefaultRoom)
  /\ Rooms (JoinRoom ["gotham"; Demo.DefaultRoom] "gotham" Demo.A Demo.s3).2
       !! Demo.DefaultRoom = Some ∅.
Proof.
  assert (H : is_Some (Rooms Demo.s3 !! Demo.DefaultRoom)) by (vm_compute; eauto).
  split; [exact H|].
  destruct (rooms_are_never_removed Demo.s3
              (JoinRoom ["gotham"; Demo.DefaultRoom] "gotham" Demo.A Demo.s3).2
              Demo.DefaultRoom) as [room Hroom].
  - apply step_JoinRoom. order_ok.
  - exact H.
  - vm_compute. reflexivity.
Defined.

(** X4.  No operation takes back what a connection was handed, and none
    reopens a connection: across any call, what a client was sent only
    grows at its end, and a closed connection stays closed. *)
Theorem connections_only_grow (s s' : State) (c : ptr) :
  op_step s s' ->
  grows (sent s c) (sent s' c)
  /\ (closed (Conn (heap s c)) = true -> closed (Conn (heap s' c)) = true).
Proof.
  intros Hstep. destruct Hstep as [ord rn cl s _|ord from to s _|ts ord ws cl s _
                                  |ts ws cl s s' HB|cl s].
  - rewrite JoinRoom_heap. unfold sent. rewrite JoinRoom_heap.
    split; [apply grows_refl | done].
  - destruct (ChangeNick_heap ord from to s c) as [E _].
    unfold sent. rewrite E. split; [apply grows_refl | done].
  - unfold Message. destruct (findRoom ord cl s) as [r0|e];
      [|split; [apply grows_refl | done]].
    destruct (Rooms s !! r0) as [room|]; [|split; [apply grows_refl | done]].
    simpl. unfold fanout. rewrite deliver_closed. split; [apply deliver_grows | done].
  - unfold Blast in HB. destruct ws as [|w rest]; [done|]. injection HB as <-.
    unfold fanout. rewrite deliver_closed. split; [apply deliver_grows | done].
  - unfold CloseClient, sent, store; simpl.
    case_decide; [subst|]; (split; [apply grows_refl | done]).
Qed.

Lemma connections_only_grow_witness :
  grows (sent Demo.q3 Demo.A)
        (sent (Message "T" ["r2"; Demo.DefaultRoom] ["hi"] Demo.B Demo.q4).2 Demo.A)
  /\ closed (Conn (heap (Message "T" ["r2"; Demo.DefaultRoom] ["hi"] Demo.B
                           Demo.q4).2 Demo.A)) = true.
Proof.
  destruct (connections_only_grow Demo.q3 Demo.q4 Demo.A) as [G1 C1].
  { apply (step_ChangeNick ["r2"; Demo.DefaultRoom] "b" "a"). order_ok. }
  destruct (connections_only_grow Demo.q4
              (Message "T" ["r2"; Demo.DefaultRoom] ["hi"] Demo.B Demo.q4).2 Demo.A)
    as [G2 C2].
  { apply step_Message. order_ok. }
  split.
  - exact (grows_trans _ _ _ G1 G2).
  - apply C2, C1. vm_compute. reflexivity.
Defined.

(** ** More on the registry operations *)

(** X5.  What the rooms hold after [JoinRoom], when at most one room had
    an entry for the nickname of the client: the target room holds the
    client under its nickname, every entry under another nickname is
    where it was, and nothing else; so the nickname is in the target room
    and in no other.  The room names are the former ones and the target,
    and no client object is touched. *)
Theorem JoinRoom_rooms_after (ord : list string) (rn : string) (cl : ptr)
  (s : State) :
  range_order s ord -> at_most_one_room s (Nick s cl) ->
  (forall n c r,
     seated (JoinRoom ord rn cl s).2 n c r
     <-> (n = Nick s cl /\ c = cl /\ r = rn) \/ (n <> Nick s cl /\ seated s n c r))
  /\ only_room (JoinRoom ord rn cl s).2 (Nick s cl) rn
  /\ (forall r, is_Some (Rooms (JoinRoom ord rn cl s).2 !! r)
                <-> r = rn \/ is_Some (Rooms s !! r))
  /\ heap (JoinRoom ord rn cl s).2 = heap s.
Proof.
  intros Hord Huniq.
  assert (HS := fun n c r => JoinRoom_seated_iff ord rn cl s n c r Hord Huniq).
  split; [done|]. split; [|split; [apply JoinRoom_room_names | apply JoinRoom_heap]].
  intros r' Hin. apply in_room_seated in Hin as [c Hc].
  apply HS in Hc as [(_ & _ & ->) | [Hne _]]; done.
Qed.

Lemma JoinRoom_rooms_after_witness :
  only_room Demo.s3 "b" "gotham"
  /\ seated Demo.s3 "a" Demo.A Demo.DefaultRoom
  /\ ~ seated Demo.s3 "b" Demo.B Demo.DefaultRoom.
Proof.
  assert (En : Nick Demo.s2 Demo.B = "b") by (vm_compute; reflexivity).
  destruct (JoinRoom_rooms_after [Demo.DefaultRoom] "gotham" Demo.B Demo.s2)
    as (HS & Honly & _).
  - order_ok.
  - apply (only_room_at_most _ _ Demo.DefaultRoom), only_room_rooms_of.
    vm_compute. reflexivity.
  - unfold Demo.s3. rewrite En in HS, Honly.
    split; [exact Honly|]. split.
    + apply (proj2 (HS "a" Demo.A Demo.DefaultRoom)). right.
      split; [discriminate|]. eexists. split; vm_compute; reflexivity.
    + intros H. apply (proj1 (HS "b" Demo.B Demo.DefaultRoom)) in H.
      destruct H as [(_ & _ & H) | [H _]]; [discriminate H | by apply H].
Defined.

(** X6.  [findRoom], for an order of visit that [range] allows: it fails,
    with the not-found error, exactly when no room has an entry for the
    nickname of the client; a room it returns has such an entry; and when
    at most one room has one, the result is the same for every order. *)
Theorem findRoom_result (ord : list string) (cl : ptr) (s : State) :
  range_order s ord ->
  (findRoom ord cl s = inr (NotFoundError (Nick s cl)) <-> unseated s (Nick s cl))
  /\ (forall e, findRoom ord cl s = inr e -> e = NotFoundError (Nick s cl))
  /\ (forall r, findRoom ord cl s = inl r -> in_room s (Nick s cl) r)
  /\ (at_most_one_room s (Nick s cl) ->
      forall ord', range_order s ord' -> findRoom ord' cl s = findRoom ord cl s).
Proof.
  intros Hord. split; [split|split; [|split]].
  - intros E r Hin. destruct (findRoom_found ord cl s r Hord Hin) as [r' E'].
    congruence.
  - apply findRoom_unseated.
  - unfold findRoom. destruct (scanRooms _ _ _); [done | by intros e [= <-]].
  - intros r. apply findRoom_in_room.
  - intros Huniq ord' Hord'.
    destruct (findRoom ord cl s) as [r|e] eqn:E.
    + apply findRoom_only; [done | by apply findRoom_in_room in E |].
      intros r' Hr'. apply Huniq; [done | by apply findRoom_in_room in E].
    + assert (Hun : unseated s (Nick s cl)).
      { intros r Hin. destruct (findRoom_found ord cl s r Hord Hin) as [r' E'].
        congruence. }
      rewrite (findRoom_unseated ord' cl s Hun).
      rewrite (findRoom_unseated ord cl s Hun) in E. congruence.
Qed.

Lemma findRoom_result_witness :
  findRoom [Demo.DefaultRoom; "gotham"] Demo.B Demo.s3
  = findRoom ["gotham"; Demo.DefaultRoom] Demo.B Demo.s3
  /\ unseated Demo.lonely (Nick Demo.lonely Demo.A).
Proof.
  destruct (findRoom_result ["gotham"; Demo.DefaultRoom] Demo.B Demo.s3)
    as (_ & _ & _ & H); [order_ok|].
  destruct (findRoom_result ["lobby"] Demo.A Demo.lonely) as ([H' _] & _);
    [order_ok|].
  split.
  - apply H; [|order_ok].
    apply (only_room_at_most _ _ "gotham"), only_room_rooms_of.
    vm_compute. reflexivity.
  - apply H'. vm_compute. reflexivity.
Defined.

(** X7.  On a new server no client has a room and no nickname is known:
    for every client [findRoom] returns the not-found error, [Message]
    returns it too and writes nothing, and [ChangeNick] fails whatever the
    two nicknames are. *)
Theorem NewServer_is_empty (h : ptr -> Client) (ts : string) (ord : list string)
  (ws : list string) (from to : string) (cl : ptr) :
  findRoom ord cl (NewServer h) = inr (NotFoundError (nick (h cl)))
  /\ Message ts ord ws cl (NewServer h)
     = (Some (NotFoundError (nick (h cl))), NewServer h)
  /\ ChangeNick ord from to (NewServer h)
     = (Some (UnknownClientError to), NewServer h).
Proof.
  assert (Hf : findRoom ord cl (NewServer h) = inr (NotFoundError (nick (h cl)))).
  { apply (findRoom_unseated ord cl (NewServer h)).
    intros r (room & Hr & _). simpl in Hr. by rewrite lookup_empty in Hr. }
  split; [done|]. split.
  - by apply Message_not_found.
  - apply ChangeNick_unknown; simpl; apply lookup_empty.
Qed.

(** X8.  A client that joins a room of a new server can be found and
    renamed: [joinRoom] returns no error, [findRoom] then returns the room
    joined, and [ChangeNick] from its nickname to any other one succeeds,
    after which the client has the new nickname and is found in the same
    room. *)
Theorem joinRoom_then_ChangeNick (h : ptr -> Client) (rn new : string) (cl : ptr) :
  new <> nick (h cl) ->
  (joinRoom rn cl (NewServer h)).1 = None
  /\ findRoom [rn] cl (joinRoom rn cl (NewServer h)).2 = inl rn
  /\ (ChangeNick [rn] (nick (h cl)) new (joinRoom rn cl (NewServer h)).2).1 = None
  /\ Nick (ChangeNick [rn] (nick (h cl)) new (joinRoom rn cl (NewServer h)).2).2 cl
     = new
  /\ findRoom [rn] cl
       (ChangeNick [rn] (nick (h cl)) new (joinRoom rn cl (NewServer h)).2).2
     = inl rn.
Proof.
  intros Hne. rewrite joinRoom_unfold. simpl.
  change (Nick (NewServer h) cl) with (nick (h cl)).
  rewrite !lookup_empty. simpl. split; [done|].
  set (s1 := mkState _ _ _).
  assert (Hf : findRoom [rn] cl s1 = inl rn).
  { unfold findRoom, s1, Nick; simpl. rewrite lookup_insert_eq.
    by rewrite bool_decide_eq_true_2 by (rewrite lookup_insert_eq; eauto). }
  split; [done|].
  rewrite (ChangeNick_renames [rn] (nick (h cl)) new s1 cl rn); [| | |done].
  - simpl. split; [done|]. split.
    + unfold Nick, store; simpl. by rewrite decide_True.
    + unfold findRoom, Nick, store; simpl. rewrite decide_True by done. simpl.
      rewrite !lookup_alter_eq, lookup_insert_eq. simpl.
      by rewrite bool_decide_eq_true_2 by (rewrite lookup_insert_eq; eauto).
  - simpl. rewrite lookup_insert_ne by done. apply lookup_empty.
  - simpl. apply lookup_insert_eq.
Qed.

Lemma joinRoom_then_ChangeNick_witness :
  Nick (ChangeNick ["test_room"] "a" "newTestUser"
          (joinRoom "test_room" Demo.A (NewServer Demo.clients)).2).2 Demo.A
  = "newTestUser".
Proof.
  destruct (joinRoom_then_ChangeNick Demo.clients "test_room" "newTestUser" Demo.A)
    as (_ & _ & _ & H & _); [discriminate | exact H].
Defined.

(** X9.  [ChangeNick] and [Message] are all or nothing: whenever one of
    them returns an error, the state it returns is the state it was given
    (unlike [JoinRoom]).  The error of [ChangeNick] is the name-taken
    error, the unknown-client error (both carry the new nickname) or the
    not-found error of [findRoom]. *)
Theorem errors_change_nothing (ts : string) (ord : list string) (from to : string)
  (ws : list string) (cl : ptr) (s : State) :
  (forall e, (ChangeNick ord from to s).1 = Some e ->
             (ChangeNick ord from to s).2 = s
             /\ (e = NameTakenError to \/ e = UnknownClientError to
                 \/ exists c, Clients s !! from = Some c /\ e = NotFoundError (Nick s c)))
  /\ (forall e, (Message ts ord ws cl s).1 = Some e ->
                (Message ts ord ws cl s).2 = s /\ e = NotFoundError (Nick s cl)).
Proof.
  split.
  - intros e. unfold ChangeNick. destruct (clientExists to s).
    { intros [= <-]. eauto. }
    destruct (Clients s !! from) as [c|] eqn:E; [|intros [= <-]; eauto].
    destruct (findRoom ord c s) as [r|e'] eqn:Hf; [done|].
    intros [= <-]. split; [done|]. right. right. exists c. split; [done|].
    unfold findRoom in Hf. destruct (scanRooms _ _ _); [done | by injection Hf].
  - intros e. unfold Message. destruct (findRoom ord cl s) as [r|e'] eqn:Hf.
    + by destruct (Rooms s !! r).
    + intros [= <-]. split; [done|].
      unfold findRoom in Hf. destruct (scanRooms _ _ _); [done | by injection Hf].
Qed.

Lemma errors_change_nothing_witness :
  (ChangeNick [] "ghost" "z" Demo.s3).2 = Demo.s3
  /\ (Message "T" ["lobby"] ["hi"] Demo.A Demo.lonely).2 = Demo.lonely.
Proof.
  destruct (errors_change_nothing "T" [] "ghost" "z" ["hi"] Demo.A Demo.s3)
    as [H1 _].
  destruct (errors_change_nothing "T" ["lobby"] "a" "z" ["hi"] Demo.A Demo.lonely)
    as [_ H2].
  split.
  - apply (H1 (UnknownClientError "z")). vm_compute. reflexivity.
  - apply (H2 (NotFoundError "a")). vm_compute. reflexivity.
Defined.

(** X10.  [JoinRoom] with a client whose nickname the flat index holds
    for another client, when a room [prev] stores that other client under
    the nickname and no other room has an entry for the nickname: the
    error is returned, the flat index is unchanged (it keeps the other
    client), but that client has lost its seat (no room stores it under
    the nickname any more) and the target room holds the new client under
    the nickname. *)
Theorem JoinRoom_same_nickname (ord : list string) (rn prev : string)
  (cl other : ptr) (s : State) :
  range_order s ord ->
  Clients s !! Nick s cl = Some other -> other <> cl ->
  seated s (Nick s cl) other prev -> only_room s (Nick s cl) prev ->
  (JoinRoom ord rn cl s).1 = Some ClientExistsError
  /\ Clients (JoinRoom ord rn cl s).2 = Clients s
  /\ seated (JoinRoom ord rn cl s).2 (Nick s cl) cl rn
  /\ forall r, ~ seated (JoinRoom ord rn cl s).2 (Nick s cl) other r.
Proof.
  intros Hord Hidx Hne Hseat Honly.
  split; [by rewrite JoinRoom_fst, Hidx|].
  split; [by rewrite JoinRoom_Clients, Hidx|].
  split; [apply JoinRoom_seated|].
  intros r Hr. apply JoinRoom_seated_iff in Hr; [|done|].
  - destruct Hr as [(_ & E & _) | [H _]]; done.
  - by apply (only_room_at_most _ _ prev).
Qed.

Lemma JoinRoom_same_nickname_witness :
  (JoinRoom ["lobby"] "gotham" 4 (JoinRoom [] "lobby" 3 (NewServer Demo.clients)).2).1
  = Some "Client already exists"
  /\ ~ seated
        (JoinRoom ["lobby"] "gotham" 4
           (JoinRoom [] "lobby" 3 (NewServer Demo.clients)).2).2
        EmptyString 3 "lobby".
Proof.
  destruct (JoinRoom_same_nickname ["lobby"] "gotham" "lobby" 4 3
              (JoinRoom [] "lobby" 3 (NewServer Demo.clients)).2)
    as (H1 & _ & _ & H4).
  - order_ok.
  - vm_compute. reflexivity.
  - discriminate.
  - eexists. split; vm_compute; reflexivity.
  - apply only_room_rooms_of. vm_compute. reflexivity.
  - split; [exact H1 | exact (H4 "lobby")].
Defined.

(** ** More on the fan-out and on the driver *)

Section FanoutOrder.

Implicit Types (s : State) (c p : ptr) (line : string).

Lemma nick_Write c line s p : nick (heap (Write c line s) p) = nick (heap s p).
Proof. apply Nick_Write. Qed.

Lemma Client_eq (x y : Client) :
  nick x = nick y -> closed (Conn x) = closed (Conn y) ->
  written (Conn x) = written (Conn y) -> x = y.
Proof. destruct x as [nx [cx wx]], y as [ny [cy wy]]. simpl. by intros -> -> ->. Qed.

Lemma deliver_heap_perm cs cs' line s p :
  cs ≡ₚ cs' -> heap (deliver cs line s) p = heap (deliver cs' line s) p.
Proof.
  intros HP. apply Client_eq.
  - change (Nick (deliver cs line s) p = Nick (deliver cs' line s) p).
    by rewrite !deliver_Nick.
  - by rewrite !deliver_closed.
  - by apply deliver_sent_perm.
Qed.

End FanoutOrder.

(** X11.  The fan-out loop of [Message] and [Blast] gives the same client
    objects whatever the order in which [range] visits the member map,
    and it touches neither the maps, nor a nickname, nor a closed flag. *)
Theorem fanout_any_order (m : gmap string ptr) (cs : list ptr) (line : string)
  (s : State) :
  cs ≡ₚ (map_to_list m).*2 ->
  (forall p, heap (deliver cs line s) p = heap (fanout m line s) p)
  /\ Rooms (fanout m line s) = Rooms s
  /\ Clients (fanout m line s) = Clients s
  /\ forall p, nick (heap (fanout m line s) p) = nick (heap s p)
               /\ closed (Conn (heap (fanout m line s) p)) = closed (Conn (heap s p)).
Proof.
  intros HP. destruct (fanout_maps m line s) as [HR HC].
  split; [|split; [done|split; [done|]]].
  - intros p. by apply deliver_heap_perm.
  - intros p. split; [apply fanout_Nick | apply deliver_closed].
Qed.

Lemma fanout_any_order_witness :
  heap (deliver [Demo.B; Demo.A] "x" Demo.s2) Demo.A
  = heap (fanout (<["a" := Demo.A]> (<["b" := Demo.B]> ∅)) "x" Demo.s2) Demo.A.
Proof.
  destruct (fanout_any_order (<["a" := Demo.A]> (<["b" := Demo.B]> ∅))
              [Demo.B; Demo.A] "x" Demo.s2) as [H _].
  - order_ok.
  - exact (H Demo.A).
Defined.

(** X12.  [ChangeNick] touches one client object at most, the one the
    flat index holds under the old nickname, and only its nickname: no
    connection is written to or closed, and every other client is as it
    was. *)
Theorem ChangeNick_touches_one_client (ord : list string) (from to : string)
  (s : State) (c : ptr) :
  Conn (heap (ChangeNick ord from to s).2 c) = Conn (heap s c)
  /\ (Clients s !! from <> Some c -> heap (ChangeNick ord from to s).2 c = heap s c).
Proof. apply ChangeNick_heap. Qed.

Lemma ChangeNick_touches_one_client_witness :
  heap (ChangeNick ["gotham"; Demo.DefaultRoom] "b" "robin" Demo.s3).2 Demo.A
  = heap Demo.s3 Demo.A.
Proof.
  destruct (ChangeNick_touches_one_client ["gotham"; Demo.DefaultRoom] "b" "robin"
              Demo.s3 Demo.A) as [_ H].
  apply H. vm_compute. discriminate.
Defined.

Section LineFacts.

Variable ToLower : string -> string.

Implicit Types (s : State) (cl : ptr) (ord : list string).

Lemma dispatch_total ts ord inputs cl s : is_Some (dispatch ToLower ts ord inputs cl s).
Proof.
  pose proof (dispatch_cases ToLower ts ord inputs cl s) as H.
  destruct inputs as [|c args]; [destruct H as (s' & -> & _); eauto|].
  repeat case_decide.
  - destruct H as (s' & -> & _). eauto.
  - destruct H as [-> _]. eauto.
  - rewrite H. eauto.
  - rewrite H. eauto.
Qed.

End LineFacts.

(** ** The lines of a session *)

(** X13.  The session loop never panics: whatever lines the reader
    returns, every iteration of [clientRun] ends in a state; the slice
    expression of [Blast] is only reached with the token [/blast] in
    front. *)
Theorem clientRun_never_panics (ToLower : string -> string)
  (lines : list ReadLine) (cl : ptr) (s : State) :
  is_Some (clientRun ToLower lines cl s).
Proof.
  revert s. induction lines as [|l lines IH]; intros s; [by eexists|].
  simpl. unfold clientRun_line.
  destruct (dispatch_total ToLower (line_ts l) (line_ord l) (Fields (line_cmd l)) cl s)
    as [s' ->].
  apply IH.
Qed.

(** X14.  A line [/blast w1 ... wn]: every client of the flat index is
    sent, once when the flat index holds no client twice, the tag with the
    clock and the nickname of the sender followed by each word after one
    space (the tag alone when there is no word); the other clients are
    left as they were. *)
Theorem blast_line (ToLower : string -> string) (ts : string) (ord : list string)
  (cmd : string) (args : list string) (cl : ptr) (s : State) :
  Fields cmd = "/blast" :: args ->
  one_key (Clients s) ->
  exists s',
    clientRun_line ToLower ts ord cmd cl s = Some s'
    /\ (forall m, member (Clients s) m ->
                  sent s' m
                  = sent s m
                    ++ ["[" +:+ ts +:+ ":" +:+ Nick s cl +:+ "]"
                        +:+ String.concat EmptyString (map (String.append " ") args)
                        +:+ CRLF])
    /\ (forall m, ~ member (Clients s) m -> heap s' m = heap s m).
Proof.
  intros E Hinj. pose proof (Fields_fields cmd) as Hf. rewrite E in Hf.
  apply Forall_cons in Hf as [_ Hargs].
  unfold clientRun_line. rewrite E. eexists. split; [reflexivity|]. split.
  - intros m Hm. rewrite fanout_member by done.
    rewrite format_line_fields by done. rewrite fold_words_spaced.
    by rewrite !string_app_assoc.
  - intros m Hm. by apply fanout_other.
Qed.

Lemma blast_line_witness :
  exists s',
    clientRun_line Demo.ToLower "T" [] ("/blast the ice man" +:+ CRLF) Demo.A Demo.s3
    = Some s'
    /\ sent s' Demo.B = ["[T:a] the ice man" +:+ CRLF].
Proof.
  destruct (blast_line Demo.ToLower "T" [] ("/blast the ice man" +:+ CRLF)
              ["the"; "ice"; "man"] Demo.A Demo.s3) as (s' & Hs & Hm & _).
  - vm_compute. reflexivity.
  - apply one_key_NoDup. apply (bool_decide_unpack _). vm_compute. exact I.
  - exists s'. split; [exact Hs|].
    rewrite (Hm Demo.B) by (exists "b"; vm_compute; reflexivity).
    vm_compute. reflexivity.
Defined.

(** X16.  A line [/room w1 ... wn] with at least one word: the client is
    afterwards in the room named by the words put together without a
    separator and lowered, and it is sent exactly the reply
    [Joining room], also when [JoinRoom] returned an error; nobody else is
    sent anything. *)
Theorem room_line (ToLower : string -> string) (ts : string) (ord : list string)
  (cmd : string) (a : string) (args : list string) (cl : ptr) (s : State) :
  Fields cmd = "/room" :: a :: args ->
  exists s',
    clientRun_line ToLower ts ord cmd cl s = Some s'
    /\ seated s' (Nick s cl) cl (ToLower (fold_left String.append (a :: args) EmptyString))
    /\ sent s' cl
       = sent s cl
         ++ ["Joining room "
             +:+ ToLower (fold_left String.append (a :: args) EmptyString) +:+ CRLF]
    /\ forall c, c <> cl -> heap s' c = heap s c.
Proof.
  intros E. unfold clientRun_line. rewrite E.
  eexists. split; [reflexivity|]. split; [|split].
  - apply JoinRoom_seated.
  - rewrite sent_Write, decide_True by done. by rewrite sent_JoinRoom.
  - intros c Hc. rewrite heap_Write_ne by done. by rewrite JoinRoom_heap.
Qed.

Lemma room_line_witness :
  exists s',
    clientRun_line Demo.ToLower "T" [Demo.DefaultRoom] ("/room gotham city" +:+ CRLF)
      Demo.A Demo.s1 = Some s'
    /\ seated s' "a" Demo.A "gothamcity"
    /\ sent s' Demo.A = ["Joining room gothamcity" +:+ CRLF].
Proof.
  destruct (room_line Demo.ToLower "T" [Demo.DefaultRoom]
              ("/room gotham city" +:+ CRLF) "gotham" ["city"] Demo.A Demo.s1)
    as (s' & Hs & Hseat & Hsent & _).
  - vm_compute. reflexivity.
  - exists s'. split; [exact Hs|]. split; [exact Hseat | exact Hsent].
Defined.

(** X17.  A line [/nick to].  When the flat index has [to], the own
    nickname of the client included, the only effect is the reply with
    the name-taken error.  When it has not, and holds the client under its
    nickname, and some room has an entry for that nickname, the client is
    renamed: it has the nickname [to], the flat index holds it under [to]
    and no longer has the old nickname, and the reply confirms the
    change. *)
Theorem nick_line (ToLower : string -> string) (ts : string) (ord : list string)
  (cmd : string) (to : string) (rest : list string) (cl : ptr) (s : State) :
  Fields cmd = "/nick" :: to :: rest ->
  (is_Some (Clients s !! to) ->
   clientRun_line ToLower ts ord cmd cl s = Some (Write cl (NameTakenError to) s))
  /\ (range_order s ord -> Clients s !! Nick s cl = Some cl ->
      Clients s !! to = None -> (exists r, in_room s (Nick s cl) r) ->
      exists s',
        clientRun_line ToLower ts ord cmd cl s = Some s'
        /\ Nick s' cl = to
        /\ Clients s' !! to = Some cl
        /\ Clients s' !! Nick s cl = None
        /\ sent s' cl
           = sent s cl
             ++ ["Nick changed from [" +:+ Nick s cl +:+ "] to [" +:+ to +:+ "]"
                 +:+ CRLF]).
Proof.
  intros E. unfold clientRun_line. rewrite E.
  change (dispatch ToLower ts ord ("/nick" :: to :: rest) cl s)
    with (let (err, s1) := ChangeNick ord (Nick s cl) to s in
          match err with
          | Some e => Some (Write cl e s1)
          | None => Some (Write cl ("Nick changed from [" +:+ Nick s cl
                                    +:+ "] to [" +:+ to +:+ "]" +:+ CRLF) s1)
          end).
  split.
  - intros Hto. by rewrite (ChangeNick_taken ord (Nick s cl) to s Hto).
  - intros Hord Hcl Hto [r Hin].
    destruct (findRoom_found ord cl s r Hord Hin) as [r' Hf].
    rewrite (ChangeNick_renames ord (Nick s cl) to s cl r') by done.
    eexists. split; [reflexivity|].
    assert (Hne : Nick s cl <> to) by congruence.
    split; [|split; [|split]].
    + unfold Nick, Write, store; simpl. by rewrite !decide_True.
    + simpl. apply lookup_insert_eq.
    + simpl. rewrite lookup_insert_ne by done. apply lookup_delete_eq.
    + unfold sent, Write, store; simpl. by rewrite !decide_True.
Qed.

Lemma nick_line_witness :
  clientRun_line Demo.ToLower "T" [] ("/nick a" +:+ CRLF) Demo.A Demo.s3
  = Some (Write Demo.A ("user [a] already exists" +:+ CRLF) Demo.s3)
  /\ exists s',
       clientRun_line Demo.ToLower "T" ["gotham"; Demo.DefaultRoom]
         ("/nick robin" +:+ CRLF) Demo.B Demo.s3 = Some s'
       /\ Nick s' Demo.B = "robin"
       /\ sent s' Demo.B = ["Nick changed from [b] to [robin]" +:+ CRLF].
Proof.
  split.
  - destruct (nick_line Demo.ToLower "T" [] ("/nick a" +:+ CRLF) "a" [] Demo.A Demo.s3)
      as [H _]; [vm_compute; reflexivity|].
    apply H. vm_compute. eauto.
  - destruct (nick_line Demo.ToLower "T" ["gotham"; Demo.DefaultRoom]
                ("/nick robin" +:+ CRLF) "robin" [] Demo.B Demo.s3)
      as [_ H]; [vm_compute; reflexivity|].
    destruct H as (s' & Hs & Hn & _ & _ & Hsent).
    + order_ok.
    + vm_compute. reflexivity.
    + vm_compute. reflexivity.
    + exists "gotham". apply in_room_rooms_of. vm_compute. left.
    + exists s'. split; [exact Hs|]. split; [exact Hn | exact Hsent].
Defined.

Lemma clientRun_line_plain_witness :
  exists s',
    clientRun_line Demo.ToLower "T" [Demo.DefaultRoom]
      ("hi  freeze, i'm batman" +:+ CRLF) Demo.A Demo.s2 = Some s'
    /\ sent s' Demo.B = ["[T:a] hi freeze, i'm batman" +:+ CRLF].
Proof.
  destruct (clientRun_line_plain Demo.ToLower "T" [Demo.DefaultRoom]
              ("hi  freeze, i'm batman" +:+ CRLF) Demo.A Demo.s2
              "hi" ["freeze,"; "i'm"; "batman"] Demo.DefaultRoom
              (<["b" := Demo.B]> (<["a" := Demo.A]> ∅)))
    as (s' & Hs & Hm).
  - vm_compute. reflexivity.
  - rewrite !elem_of_cons, elem_of_nil.
    intros [H | [H | [H | [H | [H | H]]]]]; (discriminate H || exact H).
  - order_ok.
  - vm_compute. reflexivity.
  - vm_compute. reflexivity.
  - apply only_room_rooms_of. vm_compute. reflexivity.
  - apply one_key_NoDup. apply (bool_decide_unpack _). vm_compute. exact I.
  - exists s'. split; [exact Hs|].
    rewrite (Hm Demo.B) by (exists "b"; vm_compute; reflexivity).
    vm_compute. reflexivity.
Defined.

(** ** Connection set-up *)

Section InitFacts.

Implicit Types (s : State) (cl : ptr) (ord : list string).

Lemma to_int_not_nil (z : Z) : Z.to_int z <> Decimal.Pos Decimal.Nil
                               /\ Z.to_int z <> Decimal.Neg Decimal.Nil.
Proof.
  destruct z as [|p|p]; simpl; split; try discriminate.
  - intros [= H]. pose proof (DecimalPos.Unsigned.to_uint_nonnil p). congruence.
  - intros [= H]. pose proof (DecimalPos.Unsigned.to_uint_nonnil p). congruence.
Qed.

Lemma string_app_inv_head (x y z : string) : x +:+ y = x +:+ z -> y = z.
Proof.
  induction x as [|a x IH]; [done|]. intros H. apply IH.
  change (String a (x +:+ y) = String a (x +:+ z)) in H. by injection H.
Qed.

Lemma uname_inj (n1 n2 : Z) : uname n1 = uname n2 -> n1 = n2.
Proof.
  unfold uname. intros H. apply string_app_inv_head in H.
  apply (f_equal NilZero.int_of_string) in H.
  destruct (to_int_not_nil n1) as [A1 B1], (to_int_not_nil n2) as [A2 B2].
  rewrite !NilZero.isi in H by done. injection H as H.
  apply (f_equal Z.of_int) in H. by rewrite !DecimalZ.of_to in H.
Qed.

(** A new object at an address nothing refers to. *)
Lemma WellFormed_alloc cl (x : Client) s :
  fresh s cl -> WellFormed s -> WellFormed (set_heap (store cl x) s).
Proof.
  intros [Hfc _] [[Hidx Hone] Hkey]. split; [by split|].
  intros n c Hc. simpl in Hc. unfold Nick, store; simpl.
  case_decide as E; [subst c; by destruct (Hfc n) | by apply Hkey].
Qed.

(** [fresh], read off the lists of entries. *)
Lemma fresh_list s cl :
  Forall (fun q : string * ptr => q.2 <> cl) (map_to_list (Clients s)) ->
  Forall (fun p : string * Room =>
            Forall (fun q : string * ptr => q.2 <> cl) (map_to_list p.2))
         (map_to_list (Rooms s)) ->
  fresh s cl.
Proof.
  rewrite !Forall_forall. intros HC HR. split.
  - intros n Hn. apply elem_of_map_to_list in Hn. by apply (HC _ Hn).
  - intros r room n Hr Hn. apply elem_of_map_to_list in Hr.
    specialize (HR _ Hr). simpl in HR. rewrite Forall_forall in HR.
    apply elem_of_map_to_list in Hn. by apply (HR _ Hn).
Qed.

End InitFacts.

(** X19.  The nickname a connection starts with determines the clock
    reading it was made from: connections set up at different
    nanoseconds get different nicknames. *)
Theorem uname_differs (n1 n2 : Z) : n1 <> n2 -> uname n1 <> uname n2.
Proof. intros Hne E. by apply Hne, uname_inj. Qed.

Lemma uname_differs_witness :
  uname 1700000000000000001 <> uname 1700000000000000002.
Proof. apply uname_differs. discriminate. Defined.

(** X18.  The join of [initClient], one call of [JoinRoom] on the new
    client object, on a server that satisfies the registry invariant and
    whose flat index has no entry for the generated nickname: the call
    returns no error, the invariant still holds, the client is registered
    under its nickname and sits in the default room and in no other, and
    no client object has changed. *)
Theorem initClient_join_registers (nanos : Z) (conn : NetConn) (ord : list string)
  (cl : ptr) (s : State) :
  WellFormed s -> range_order s ord -> fresh s cl ->
  Clients s !! uname nanos = None ->
  (JoinRoom ord DefaultRoom cl (newClient nanos conn cl s)).1 = None
  /\ WellFormed (JoinRoom ord DefaultRoom cl (newClient nanos conn cl s)).2
  /\ Nick (JoinRoom ord DefaultRoom cl (newClient nanos conn cl s)).2 cl = uname nanos
  /\ Clients (JoinRoom ord DefaultRoom cl (newClient nanos conn cl s)).2 !! uname nanos
     = Some cl
  /\ seated (JoinRoom ord DefaultRoom cl (newClient nanos conn cl s)).2
       (uname nanos) cl DefaultRoom
  /\ only_room (JoinRoom ord DefaultRoom cl (newClient nanos conn cl s)).2
       (uname nanos) DefaultRoom
  /\ heap (JoinRoom ord DefaultRoom cl (newClient nanos conn cl s)).2 cl
     = mkClient (uname nanos) conn
  /\ forall c, c <> cl ->
               heap (JoinRoom ord DefaultRoom cl (newClient nanos conn cl s)).2 c
               = heap s c.
Proof.
  intros Hwf Hord Hfresh Hnew.
  set (s0 := newClient nanos conn cl s).
  assert (Hn0 : Nick s0 cl = uname nanos).
  { unfold Nick, s0, newClient, store; simpl. by rewrite decide_True. }
  assert (Hwf0 : WellFormed s0) by (by apply WellFormed_alloc).
  assert (Hwf1 : WellFormed (JoinRoom ord DefaultRoom cl s0).2).
  { apply JoinRoom_WellFormed; [done | left; by rewrite Hn0 | done]. }
  pose proof (JoinRoom_seated ord DefaultRoom cl s0) as Hseat. rewrite Hn0 in Hseat.
  assert (HC : Clients (JoinRoom ord DefaultRoom cl s0).2 !! uname nanos = Some cl).
  { rewrite JoinRoom_Clients, Hn0.
    change (Clients s0) with (Clients s). rewrite Hnew. apply lookup_insert_eq. }
  split; [|split; [done|split; [|split; [done|split; [done|split; [|split]]]]]].
  - rewrite JoinRoom_fst, Hn0. change (Clients s0) with (Clients s). by rewrite Hnew.
  - unfold Nick. by rewrite JoinRoom_heap.
  - by apply (WellFormed_only_room _ _ cl).
  - rewrite JoinRoom_heap. unfold s0, newClient, store; simpl. by rewrite decide_True.
  - intros c Hc. rewrite JoinRoom_heap. unfold s0, newClient, store; simpl.
    by rewrite decide_False.
Qed.

Lemma initClient_join_registers_witness :
  (JoinRoom ["gotham"; Demo.DefaultRoom] "Gotham City" 5
     (newClient 1700000000000000001 (mkConn false []) 5 Demo.s3)).1 = None
  /\ seated
       (JoinRoom ["gotham"; Demo.DefaultRoom] "Gotham City" 5
          (newClient 1700000000000000001 (mkConn false []) 5 Demo.s3)).2
       "user1700000000000000001" 5 "Gotham City".
Proof.
  destruct (initClient_join_registers 1700000000000000001 (mkConn false [])
              ["gotham"; Demo.DefaultRoom] 5 Demo.s3)
    as (Herr & _ & _ & _ & Hseat & _).
  - apply (seat_reachable_inv Demo.clients), Demo_s3_seat_reachable.
  - order_ok.
  - apply fresh_list; vm_compute; repeat constructor; discriminate.
  - vm_compute. reflexivity.
  - split; [exact Herr | exact Hseat].
Defined.

Section KeepFacts.

Implicit Types (s : State) (cl c : ptr) (ord : list string).

Lemma fanout_keeps m line s : keeps_clients s (fanout m line s).
Proof.
  destruct (fanout_maps m line s) as [_ HC]. split.
  - intros c. by rewrite HC.
  - intros p. apply deliver_closed.
Qed.

Lemma keeps_refl s : keeps_clients s s.
Proof. by split. Qed.

Lemma JoinRoom_keeps ord rn cl s : keeps_clients s (JoinRoom ord rn cl s).2.
Proof.
  split.
  - intros c [n Hn]. rewrite JoinRoom_Clients.
    destruct (Clients s !! Nick s cl) eqn:E; [by exists n|].
    exists n. rewrite lookup_insert_ne; [done|]. intros <-. congruence.
  - intros p. by rewrite JoinRoom_heap.
Qed.

Lemma ChangeNick_keeps ord from to s : keeps_clients s (ChangeNick ord from to s).2.
Proof.
  split.
  - destruct (Clients s !! to) as [c0|] eqn:Hto.
    { rewrite (ChangeNick_taken ord from to s); [done | eauto]. }
    destruct (Clients s !! from) as [cl|] eqn:Hfrom.
    2:{ by rewrite (ChangeNick_unknown ord from to s). }
    destruct (findRoom ord cl s) as [r|e] eqn:Hf.
    2:{ by rewrite (ChangeNick_not_found ord from to s cl e). }
    rewrite (ChangeNick_renames ord from to s cl r) by done.
    intros c [n Hn]. simpl. destruct (decide (n = from)) as [->|Hne].
    + exists to. rewrite lookup_insert_eq. congruence.
    + exists n. rewrite lookup_insert_ne by congruence.
      by rewrite lookup_delete_ne.
  - intros p. by destruct (ChangeNick_heap ord from to s p) as [-> _].
Qed.

Lemma Message_keeps ts ord ws cl s : keeps_clients s (Message ts ord ws cl s).2.
Proof.
  unfold Message. destruct (findRoom ord cl s) as [r|e]; [|apply keeps_refl].
  destruct (Rooms s !! r) as [room|]; [|apply keeps_refl]. apply fanout_keeps.
Qed.

End KeepFacts.

(** X20.  [CloseClient] is the only operation that takes a client out of
    the flat index or closes a connection: after [JoinRoom], [ChangeNick],
    [Message] and [Blast], on any arguments, every client the flat index
    held is still in it (after a rename, under the new nickname) and every
    connection is as open or closed as before; [CloseClient] closes the
    connection of the client and leaves the flat index without an entry
    for its nickname. *)
Theorem only_CloseClient_unregisters (s : State) :
  (forall ord rn cl, keeps_clients s (JoinRoom ord rn cl s).2)
  /\ (forall ord from to, keeps_clients s (ChangeNick ord from to s).2)
  /\ (forall ts ord ws cl, keeps_clients s (Message ts ord ws cl s).2)
  /\ (forall ts ws cl s', Blast ts ws cl s = Some s' -> keeps_clients s s')
  /\ (forall cl, Clients (CloseClient cl s) !! Nick s cl = None
                 /\ closed (Conn (heap (CloseClient cl s) cl)) = true).
Proof.
  split; [intros; apply JoinRoom_keeps|]. split; [intros; apply ChangeNick_keeps|].
  split; [intros; apply Message_keeps|]. split.
  - intros ts ws cl s' HB. unfold Blast in HB. destruct ws as [|w rest]; [done|].
    injection HB as <-. apply fanout_keeps.
  - intros cl. unfold CloseClient, Nick, store; simpl.
    rewrite decide_True by done. simpl. split; [apply lookup_delete_eq | done].
Qed.

Lemma only_CloseClient_unregisters_witness :
  exists s', Blast "T" ["/blast"; "x"] Demo.A Demo.s3 = Some s'
             /\ member (Clients s') Demo.B
             /\ closed (Conn (heap s' Demo.B)) = false.
Proof.
  destruct (only_CloseClient_unregisters Demo.s3) as (_ & _ & _ & H & _).
  eexists. split; [reflexivity|].
  destruct (H "T" ["/blast"; "x"] Demo.A _ eq_refl) as [Hm Hc].
  split.
  - apply Hm. exists "b". vm_compute. reflexivity.
  - rewrite Hc. vm_compute. reflexivity.
Defined.

(** X21.  A successful rename moves one entry and leaves the others: when
    the flat index holds the client under the old nickname, which is its
    nickname, and has no entry for the new one, the client sits in room
    [r] and in no other, and no room has the new nickname, then after
    [ChangeNick] the rooms hold the client under the new nickname in [r]
    and every entry under a third nickname where it was, and nothing else;
    the same for the flat index. *)
Theorem ChangeNick_moves_one_entry (ord : list string) (from to : string)
  (cl : ptr) (r : string) (s : State) :
  range_order s ord ->
  Clients s !! from = Some cl -> Nick s cl = from -> Clients s !! to = None ->
  seated s from cl r -> only_room s from r -> unseated s to ->
  (forall n c r',
     seated (ChangeNick ord from to s).2 n c r'
     <-> (n = to /\ c = cl /\ r' = r) \/ (n <> to /\ n <> from /\ seated s n c r'))
  /\ (forall n c,
        Clients (ChangeNick ord from to s).2 !! n = Some c
        <-> (n = to /\ c = cl) \/ (n <> to /\ n <> from /\ Clients s !! n = Some c)).
Proof.
  intros Hord Hfrom Hnick Hto (room & Hroom & Hcl) Honly Hunto.
  assert (Hne : from <> to) by congruence.
  assert (Hf : findRoom ord cl s = inl r).
  { apply findRoom_only; rewrite ?Hnick; [done | | done]. exists room. eauto. }
  rewrite (ChangeNick_renames ord from to s cl r) by done. simpl.
  assert (HR : alter (insert to cl) r (alter (delete from) r (Rooms s))
               = <[r := <[to := cl]> (delete from room)]> (Rooms s)).
  { apply map_eq. intros k. destruct (decide (k = r)) as [->|Hk].
    - by rewrite !lookup_alter_eq, lookup_insert_eq, Hroom.
    - by rewrite !lookup_alter_ne, lookup_insert_ne. }
  rewrite HR. clear HR. split.
  - intros n c r'. unfold seated; simpl.
    destruct (decide (r' = r)) as [->|Hr].
    + rewrite lookup_insert_eq. split.
      * intros (room' & [= <-] & Hn).
        destruct (decide (n = to)) as [->|Hnt].
        -- rewrite lookup_insert_eq in Hn. left. by injection Hn as <-.
        -- rewrite lookup_insert_ne in Hn by done.
           apply lookup_delete_Some in Hn as [Hnf Hn]. right.
           split; [done|]. split; [done|]. eauto.
      * intros [(-> & -> & _) | (Hnt & Hnf & room' & Hr' & Hn)].
        -- eexists. split; [done|]. apply lookup_insert_eq.
        -- eexists. split; [done|].
           rewrite lookup_insert_ne, lookup_delete_ne by done. congruence.
    + rewrite lookup_insert_ne by done. split.
      * intros (room' & Hr' & Hn). right. split; [|split; [|eauto]].
        -- intros ->. apply (Hunto r'). exists room'. eauto.
        -- intros ->. apply Hr, Honly. exists room'. eauto.
      * intros [(_ & _ & ->) | (_ & _ & H)]; done.
  - intros n c. destruct (decide (n = to)) as [->|Hnt].
    + rewrite lookup_insert_eq. split; [intros [= <-]; eauto|].
      intros [[_ ->] | [? _]]; done.
    + rewrite lookup_insert_ne by done. rewrite lookup_delete_Some.
      split; [intros [? ?]; right; eauto|].
      intros [[? _] | (_ & ? & ?)]; done.
Qed.

Lemma ChangeNick_moves_one_entry_witness :
  seated (ChangeNick [Demo.DefaultRoom] "b" "robin" Demo.s2).2 "a" Demo.A
    Demo.DefaultRoom
  /\ Clients (ChangeNick [Demo.DefaultRoom] "b" "robin" Demo.s2).2 !! "a"
     = Some Demo.A.
Proof.
  destruct (ChangeNick_moves_one_entry [Demo.DefaultRoom] "b" "robin" Demo.B
              Demo.DefaultRoom Demo.s2) as [HS HC].
  - order_ok.
  - vm_compute. reflexivity.
  - vm_compute. reflexivity.
  - vm_compute. reflexivity.
  - eexists. split; vm_compute; reflexivity.
  - apply only_room_rooms_of. vm_compute. reflexivity.
  - apply unseated_rooms_of. vm_compute. reflexivity.
  - split.
    + apply HS. right. split; [discriminate|]. split; [discriminate|].
      eexists. split; vm_compute; reflexivity.
    + apply HC. right. split; [discriminate|]. split; [discriminate|].
      vm_compute. reflexivity.
Defined.

(** ** Room entries of the flat index's nicknames *)

Section IndexFacts.

Implicit Types (s : State) (cl c : ptr) (ord : list string).






End IndexFacts.


(** More example states of a server. *)
Lemma Demo_q3_reachable : reachable Demo.clients Demo.q3.
Proof.
  apply (reach_step _ Demo.q2); [apply (reach_step _ Demo.q1);
    [apply (reach_step _ (NewServer Demo.clients)); [apply reach_new|] |] |].
  - apply (step_JoinRoom [] "r2" Demo.A). vm_compute. reflexivity.
  - apply (step_JoinRoom ["r2"] Demo.DefaultRoom Demo.B). vm_compute. reflexivity.
  - apply step_CloseClient.
Qed.


Lemma Demo_q8_reachable : reachable Demo.clients Demo.q8.
Proof.
  apply (reach_step _ (ChangeNick ["r2"; Demo.DefaultRoom] "a" "c" Demo.q4).2);
    [apply (reach_step _ Demo.q4); [apply Demo_q4_reachable|] |].
  - apply (step_ChangeNick ["r2"; Demo.DefaultRoom] "a" "c"). order_ok.
  - apply (step_JoinRoom ["r2"; Demo.DefaultRoom] Demo.DefaultRoom Demo.B). order_ok.
Qed.

(** ** [ChangeNick] and the not-found error of [findRoom] *)




(** ** What the entry that [CloseClient] leaves behind does to the other
    operations *)

(** C5, at the failing input.  In the state [q3] of a server ([A] joined
    [r2], [B] the default room, [A] quit) the flat index holds [B] under
    [b] and has no entry for [a], and [B] sits in the default room, where
    [findRoom] finds it.  [ChangeNick] from [b] to [a] succeeds; but [r2]
    still has the entry [a] of [A], and [findRoom] on [B], visiting [r2]
    first, now returns [r2]: not the room [B] was in before the call. *)
Theorem ChangeNick_after_quit_finds_other_room :
  reachable Demo.clients Demo.q3
  /\ Clients Demo.q3 !! "b" = Some Demo.B
  /\ Clients Demo.q3 !! "a" = None
  /\ seated Demo.q3 "b" Demo.B Demo.DefaultRoom
  /\ range_order Demo.q3 ["r2"; Demo.DefaultRoom]
  /\ findRoom ["r2"; Demo.DefaultRoom] Demo.B Demo.q3 = inl Demo.DefaultRoom
  /\ (ChangeNick ["r2"; Demo.DefaultRoom] "b" "a" Demo.q3).1 = None
  /\ range_order (ChangeNick ["r2"; Demo.DefaultRoom] "b" "a" Demo.q3).2
       ["r2"; Demo.DefaultRoom]
  /\ findRoom ["r2"; Demo.DefaultRoom] Demo.B
       (ChangeNick ["r2"; Demo.DefaultRoom] "b" "a" Demo.q3).2 = inl "r2"
  /\ seated (ChangeNick ["r2"; Demo.DefaultRoom] "b" "a" Demo.q3).2 "a" Demo.A "r2".
Proof.
  split; [apply Demo_q3_reachable|].
  split; [vm_compute; reflexivity|]. split; [vm_compute; reflexivity|].
  split; [eexists; split; vm_compute; reflexivity|].
  split; [order_ok|]. split; [vm_compute; reflexivity|].
  split; [vm_compute; reflexivity|]. split; [order_ok|].
  split; [vm_compute; reflexivity|].
  eexists; split; vm_compute; reflexivity.
Qed.

(** C6, as stated, fails.  The line is trimmed: for the word [hi]
    followed by a space, the members are sent the tag and [hi] without the
    space, not the words joined with single spaces.  In the state [q4] of
    a server, where [B] sits in the default room under the nickname [a]
    that the room [r2] still has for [A], the message of [B], with [r2]
    visited first, is sent to [A] and not to [B].  And in the state [q8]
    of a server, where the default room is the only room with the
    nickname [c] of [B] but holds [B] under [a] as well, the message of
    [B] is sent to [B] twice. *)
Lemma Message_not_as_stated :
  sent (Message "T" [Demo.DefaultRoom] ["hi "] Demo.A Demo.s1).2 Demo.A
  = ["[T:a] hi" +:+ CRLF]
  /\ "[T:a] hi" +:+ CRLF <> "[T:a] " +:+ String.concat " " ["hi "] +:+ CRLF
  /\ reachable Demo.clients Demo.q4
  /\ seated Demo.q4 (Nick Demo.q4 Demo.B) Demo.B Demo.DefaultRoom
  /\ range_order Demo.q4 ["r2"; Demo.DefaultRoom]
  /\ (Message "T" ["r2"; Demo.DefaultRoom] ["hi"] Demo.B Demo.q4).1 = None
  /\ sent (Message "T" ["r2"; Demo.DefaultRoom] ["hi"] Demo.B Demo.q4).2 Demo.B = []
  /\ sent (Message "T" ["r2"; Demo.DefaultRoom] ["hi"] Demo.B Demo.q4).2 Demo.A
     = ["[T:a] hi" +:+ CRLF]
  /\ reachable Demo.clients Demo.q8
  /\ seated Demo.q8 (Nick Demo.q8 Demo.B) Demo.B Demo.DefaultRoom
  /\ only_room Demo.q8 (Nick Demo.q8 Demo.B) Demo.DefaultRoom
  /\ range_order Demo.q8 [Demo.DefaultRoom; "r2"]
  /\ sent (Message "T" [Demo.DefaultRoom; "r2"] ["hi"] Demo.B Demo.q8).2 Demo.B
     = ["[T:c] hi" +:+ CRLF; "[T:c] hi" +:+ CRLF].
Proof.
  split; [vm_compute; reflexivity|]. split; [vm_compute; discriminate|].
  split; [apply Demo_q4_reachable|].
  split; [eexists; split; vm_compute; reflexivity|].
  split; [order_ok|]. split; [vm_compute; reflexivity|].
  split; [vm_compute; reflexivity|]. split; [vm_compute; reflexivity|].
  split; [apply Demo_q8_reachable|].
  split; [eexists; split; vm_compute; reflexivity|].
  split; [apply only_room_rooms_of; vm_compute; reflexivity|].
  split; [order_ok|]. vm_compute. reflexivity.
Qed.

(** C9, at the failing input.  In the state [q4] of a server, [B] calls
    [JoinRoom] twice in succession with the room [x]: the first call
    ([r2] visited first) takes the entry of [A] out of [r2] and leaves [B]
    in the default room; the second call (the default room visited first)
    takes [B] out of the default room.  The second call has changed the
    state, and the room [findRoom] gives for [B] with that order is the
    default room before it and [x] after it. *)
Theorem JoinRoom_twice_after_quit :
  reachable Demo.clients Demo.q4
  /\ range_order Demo.q4 ["r2"; Demo.DefaultRoom]
  /\ range_order (JoinRoom ["r2"; Demo.DefaultRoom] "x" Demo.B Demo.q4).2
       [Demo.DefaultRoom; "r2"; "x"]
  /\ findRoom [Demo.DefaultRoom; "r2"; "x"] Demo.B
       (JoinRoom ["r2"; Demo.DefaultRoom] "x" Demo.B Demo.q4).2
     = inl Demo.DefaultRoom
  /\ (JoinRoom [Demo.DefaultRoom; "r2"; "x"] "x" Demo.B
        (JoinRoom ["r2"; Demo.DefaultRoom] "x" Demo.B Demo.q4).2).2
     <> (JoinRoom ["r2"; Demo.DefaultRoom] "x" Demo.B Demo.q4).2
  /\ range_order
       (JoinRoom [Demo.DefaultRoom; "r2"; "x"] "x" Demo.B
          (JoinRoom ["r2"; Demo.DefaultRoom] "x" Demo.B Demo.q4).2).2
       [Demo.DefaultRoom; "r2"; "x"]
  /\ findRoom [Demo.DefaultRoom; "r2"; "x"] Demo.B
       (JoinRoom [Demo.DefaultRoom; "r2"; "x"] "x" Demo.B
          (JoinRoom ["r2"; Demo.DefaultRoom] "x" Demo.B Demo.q4).2).2
     = inl "x".
Proof.
  split; [apply Demo_q4_reachable|]. split; [order_ok|]. split; [order_ok|].
  split; [vm_compute; reflexivity|]. split; [|split; [order_ok|vm_compute; reflexivity]].
  intros E.
  apply (f_equal (fun s => Rooms s !! Demo.DefaultRoom ≫= (.!! "a"))) in E.
  vm_compute in E. discriminate.
Qed.

(** C10, at the failing input.  In the state [q4] of a server the flat
    index holds [B] under its nickname [a], and [B] sits in the default
    room.  [JoinRoom] of [B] to the room [x], with [r2] visited first,
    returns the error and puts [B] into [x], but it has not taken [B] out
    of the default room: what it removed is the entry of [A] in [r2]. *)
Theorem JoinRoom_error_keeps_previous_room :
  reachable Demo.clients Demo.q4
  /\ Clients Demo.q4 !! Nick Demo.q4 Demo.B = Some Demo.B
  /\ seated Demo.q4 (Nick Demo.q4 Demo.B) Demo.B Demo.DefaultRoom
  /\ range_order Demo.q4 ["r2"; Demo.DefaultRoom]
  /\ (JoinRoom ["r2"; Demo.DefaultRoom] "x" Demo.B Demo.q4).1
     = Some "Client already exists"
  /\ seated (JoinRoom ["r2"; Demo.DefaultRoom] "x" Demo.B Demo.q4).2
       (Nick Demo.q4 Demo.B) Demo.B "x"
  /\ seated (JoinRoom ["r2"; Demo.DefaultRoom] "x" Demo.B Demo.q4).2
       (Nick Demo.q4 Demo.B) Demo.B Demo.DefaultRoom
  /\ Rooms (JoinRoom ["r2"; Demo.DefaultRoom] "x" Demo.B Demo.q4).2 !! "r2" = Some ∅.
Proof.
  split; [apply Demo_q4_reachable|]. split; [vm_compute; reflexivity|].
  split; [eexists; split; vm_compute; reflexivity|]. split; [order_ok|].
  split; [vm_compute; reflexivity|].
  split; [eexists; split; vm_compute; reflexivity|].
  split; [eexists; split; vm_compute; reflexivity|].
  vm_compute. reflexivity.
Qed.
